(** * monaca-lib: the synchronisation and build-orchestration core of [src/monaca.js]

    A shallow embedding of the parts of [monaca.js] that compute the
    transfer set of a project ([_filterFiles], the upload [fileFilter]),
    scan a local project ([getLocalProjectFiles]), run a batch of file
    transfers ([uploadProject], [downloadProject], [cloneProject]) and drive
    a remote build ([buildProject] with its [pollBuild] timer).

    JavaScript objects used as dictionaries are finite maps with string keys;
    objects that the code mutates in place live in a heap indexed by
    references, so that two names for one object are one location.  The
    asynchronous parts are event-driven transition systems: every callback of
    the source is one atomic step, and a run is the list of events in the
    order in which the callbacks fire. *)

From Stdlib Require Import Ascii ZArith Lia.
From stdpp Require Import base tactics option list strings gmap functions.

(** ** Deferred objects of the promise library

    The source settles its results through deferred objects of the Q
    library.  A deferred is pending until the first [resolve] or [reject];
    afterwards [resolve], [reject] and [notify] leave it as it is. *)
Module Deferred.

Inductive state (V E : Type) : Type :=
| Pending
| Fulfilled (v : V)
| Rejected (e : E).
Arguments Pending {V E}.
Arguments Fulfilled {V E} v.
Arguments Rejected {V E} e.

Definition is_pending {V E} (d : state V E) : bool :=
  match d with Pending => true | _ => false end.

(** [deferred.resolve(v)] *)
Definition resolve {V E} (v : V) (d : state V E) : state V E :=
  match d with Pending => Fulfilled v | _ => d end.

(** [deferred.reject(e)] *)
Definition reject {V E} (e : E) (d : state V E) : state V E :=
  match d with Pending => Rejected e | _ => d end.

(** [deferred.notify(p)]: the progress value reaches the listeners only
    while the deferred is pending; [log] is the stream seen by them. *)
Definition notify {V E P} (p : P) (d : state V E) (log : list P) : list P :=
  if is_pending d then log ++ [p] else log.

End Deferred.

(** ** File trees and [_filterFiles] *)
Module FileTree.

(** [obj.type] is ['file'] or ['dir']. *)
Inductive kind := File | Dir.

Global Instance kind_eq_dec : EqDecision kind.
Proof. solve_decision. Defined.

(** An entry of a tree: its type and, for files, the checksum ([hash] is
    [undefined] on directories). *)
Record entry := Entry { type : kind; hash : option string }.

Global Instance entry_eq_dec : EqDecision entry.
Proof. solve_decision. Defined.

(** A file tree is an object whose own properties are the paths. *)
Abbreviation tree := (gmap string entry).

(** Objects are referred to by location; the heap holds their contents. *)
Definition loc := nat.
Abbreviation heap := (loc → gmap string entry).

(** The own enumerable property names of an object, as [for (key in o)]
    and [Object.keys(o)] enumerate them. *)
Definition keys (t : tree) : list string := (map_to_list t).*1.

(** One iteration of the loop body of [_filterFiles]. *)
Definition filterStep (dst src : loc) (h : heap) (key : string) : heap :=
  match h dst !! key with                       (* dst.hasOwnProperty(key) *)
  | None => h
  | Some d =>
      if decide (type d = Dir) then
        <[dst := delete key (h dst)]> h         (* delete dst[key] *)
      else
        match h dst !! key, h src !! key with   (* both have the key *)
        | Some _, Some s =>
            if decide (hash d = hash s) then    (* d.hash === s.hash *)
              <[dst := delete key (h dst)]> h
            else h
        | _, _ => h
        end
  end.

(** [Monaca.prototype._filterFiles(dst, src)]: the loop runs over the keys
    of [dst]; the function has no [return], its result is [undefined]. *)
Definition filterFiles (dst src : loc) (h : heap) : unit * heap :=
  (tt, foldl (filterStep dst src) h (keys (h dst))).

(** The test that decides whether the loop body deletes [key]. *)
Definition dropped (dst src : loc) (h : heap) (key : string) : bool :=
  match h dst !! key with
  | None => false
  | Some d =>
      bool_decide (type d = Dir) ||
      match h src !! key with
      | Some s => bool_decide (hash d = hash s)
      | None => false
      end
  end.

End FileTree.

(** ** Strings and the regular expression of the upload filter *)
Module Str.

(** [s] begins with [w]. *)
Fixpoint starts_with (w s : string) : bool :=
  match w, s with
  | EmptyString, _ => true
  | String a w', String b s' => bool_decide (a = b) && starts_with w' s'
  | String _ _, EmptyString => false
  end.

(** [hay.indexOf(needle)]: the first position at which [needle] occurs,
    [-1] when there is none. *)
Fixpoint indexOf_from (needle hay : string) (i : Z) : Z :=
  if starts_with needle hay then i
  else match hay with
       | EmptyString => (-1)%Z
       | String _ rest => indexOf_from needle rest (i + 1)
       end.

Definition indexOf (hay needle : string) : Z := indexOf_from needle hay 0.

(** The characters of [s] contain [c]. *)
Fixpoint has_char (c : ascii) (s : string) : bool :=
  match s with
  | EmptyString => false
  | String a s' => bool_decide (a = c) || has_char c s'
  end.

(** [s.split(c)] for a one-character separator. *)
Fixpoint split (c : ascii) (s : string) : list string :=
  match s with
  | EmptyString => [EmptyString]
  | String a s' =>
      if bool_decide (a = c) then EmptyString :: split c s'
      else match split c s' with
           | seg :: segs => String a seg :: segs
           | [] => [String a EmptyString]
           end
  end.

End Str.

Module Regex.

(** A character class: one character, or any character but one. *)
Inductive cls := COne (c : ascii) | CNot (c : ascii).

Definition cls_ok (k : cls) (a : ascii) : bool :=
  match k with
  | COne c => bool_decide (a = c)
  | CNot c => negb (bool_decide (a = c))
  end.

(** The fragment of the regular expressions of the language that the
    source uses: anchors, classes, sequence, alternative and the star of a
    class. *)
Inductive re :=
| RBol                      (* ^ *)
| REol                      (* $ *)
| REps
| RCls (k : cls)
| RSeq (r1 r2 : re)
| RAlt (r1 r2 : re)
| RStar (k : cls).          (* k* *)

(** A literal is the sequence of its characters. *)
Fixpoint lit (w : string) : re :=
  match w with
  | EmptyString => REps
  | String a w' => RSeq (RCls (COne a)) (lit w')
  end.

Fixpoint star (k : cls) (bol : bool) (s : string)
    (cont : bool → string → bool) : bool :=
  cont bol s ||
  match s with
  | String a s' => cls_ok k a && star k false s' cont
  | EmptyString => false
  end.

(** A backtracking matcher: [bol] tells whether the position is the
    beginning of the input, [s] is the rest of the input and [cont]
    decides what follows the expression. *)
Fixpoint run (r : re) (bol : bool) (s : string)
    (cont : bool → string → bool) : bool :=
  match r with
  | RBol => bol && cont bol s
  | REol => match s with EmptyString => cont bol s | _ => false end
  | REps => cont bol s
  | RCls k =>
      match s with
      | String a s' => cls_ok k a && cont false s'
      | EmptyString => false
      end
  | RSeq r1 r2 => run r1 bol s (λ b s', run r2 b s' cont)
  | RAlt r1 r2 => run r1 bol s cont || run r2 bol s cont
  | RStar k => star k bol s cont
  end.

Fixpoint test_from (r : re) (bol : bool) (s : string) : bool :=
  run r bol s (λ _ _, true) ||
  match s with
  | String _ s' => test_from r false s'
  | EmptyString => false
  end.

(** [r.test(s)]: some position of [s] starts a match. *)
Definition test (r : re) (s : string) : bool := test_from r true s.

End Regex.

(** ** The scope filter of [uploadProject] *)
Module Upload.
Import FileTree.

(** [/^\/(www\/|merges\/|plugins\/|[^/]*$)/] *)
Definition scope_re : Regex.re :=
  Regex.RSeq Regex.RBol
    (Regex.RSeq (Regex.RCls (Regex.COne "/"))
       (Regex.RAlt (Regex.lit "www/")
          (Regex.RAlt (Regex.lit "merges/")
             (Regex.RAlt (Regex.lit "plugins/")
                (Regex.RSeq (Regex.RStar (Regex.CNot "/")) Regex.REol))))).

(** [fileFilter] of [uploadProject] *)
Definition fileFilter (fn : string) : bool :=
  if (0 <=? Str.indexOf fn "/.")%Z then false
  else Regex.test scope_re fn.

(** The keys that [uploadProject] turns into upload tasks: the local tree
    is filtered in place against the remote one, then its keys are
    filtered by [fileFilter]. *)
Definition uploadKeys (localFiles remoteFiles : loc) (h : heap) : list string :=
  let h' := (filterFiles localFiles remoteFiles h).2 in
  filter (λ fn, fileFilter fn = true) (keys (h' localFiles)).

(** A path has a hidden segment when one of the segments between its
    slashes begins with a dot. *)
Definition has_hidden_segment (p : string) : bool :=
  existsb (Str.starts_with ".") (Str.split "/" p).

(** A top-level path: a slash followed by a name without a slash. *)
Definition top_level (p : string) : Prop :=
  ∃ name, p = String "/" name ∧ Str.has_char "/" name = false.

End Upload.

(** ** Transfer batches

    [uploadProject], [downloadProject] and [cloneProject] start one transfer
    per key, create one deferred per transfer ([defers]), and settle their own
    deferred from [Q.all(promises)].  A step of the batch is the completion
    of one transfer together with the promise reactions it triggers: the
    library runs the reactions from a queue that is emptied before the next
    I/O callback fires, so the reactions of two completions do not
    interleave. *)
Module Batch.

(** The value a failed transfer is rejected with. *)
Definition error := string.

Inductive outcome := Ok | Err (e : error).

(** The completion of the transfer started for [ev_key]. *)
Record event := Settle { ev_key : string; ev_outcome : outcome }.

(** The object passed to [deferred.notify]. *)
Record progress := Progress { path : string; total : nat; index : nat }.

Global Instance progress_eq_dec : EqDecision progress.
Proof. solve_decision. Defined.

Record state (V : Type) := State {
  totalLength : nat;
  currentIndex : nat;
  defers : list (Deferred.state unit error);
  pendingCount : nat;                          (* of Q.all(promises) *)
  all : Deferred.state unit error;             (* Q.all(promises) *)
  deferred : Deferred.state V error;           (* the promise returned *)
  notified : list progress                     (* progress seen by the caller *)
}.
Arguments State {V}.
Arguments totalLength {V}.
Arguments currentIndex {V}.
Arguments defers {V}.
Arguments pendingCount {V}.
Arguments all {V}.
Arguments deferred {V}.
Arguments notified {V}.

Section Run.
Context {V : Type}.

(** [report key]: the value the transfer promise of [key] is fulfilled
    with ([uploadFile] gives the remote path, [downloadFile] the local
    one). *)
Variable report : string → string.

(** The fulfilment handler given to [Q.all(promises).then]. *)
Variable finish : Deferred.state V error → Deferred.state V error.

(** [Q.all]: fulfilled when the last pending promise is. *)
Definition all_resolve (st : state V) : state V :=
  match all st with
  | Deferred.Pending =>
      State (totalLength st) (currentIndex st) (defers st)
        (pendingCount st) (Deferred.Fulfilled tt) (finish (deferred st))
        (notified st)
  | _ => st
  end.

(** [Q.all]: rejected by the first promise that is rejected. *)
Definition all_reject (e : error) (st : state V) : state V :=
  match all st with
  | Deferred.Pending =>
      State (totalLength st) (currentIndex st) (defers st)
        (pendingCount st) (Deferred.Rejected e)
        (Deferred.reject e (deferred st)) (notified st)
  | _ => st
  end.

(** [defers[i].resolve()]; [defers[i]] is [undefined] out of range and
    the call throws inside the handler. *)
Definition defer_resolve (i : nat) (st : state V) : state V :=
  match defers st !! i with
  | Some Deferred.Pending =>
      let st' :=
        State (totalLength st) (currentIndex st)
          (<[i := Deferred.Fulfilled tt]> (defers st))
          (pendingCount st - 1) (all st) (deferred st) (notified st) in
      if pendingCount st' =? 0 then all_resolve st' else st'
  | _ => st
  end.

(** [defers[i].reject(error)] *)
Definition defer_reject (i : nat) (e : error) (st : state V) : state V :=
  match defers st !! i with
  | Some Deferred.Pending =>
      all_reject e
        (State (totalLength st) (currentIndex st)
           (<[i := Deferred.Rejected e]> (defers st))
           (pendingCount st) (all st) (deferred st) (notified st))
  | _ => st
  end.

(** [deferred.notify({path, total: totalLength, index: currentIndex})] *)
Definition notify_progress (p : string) (st : state V) : state V :=
  State (totalLength st) (currentIndex st) (defers st) (pendingCount st)
    (all st) (deferred st)
    (Deferred.notify (Progress p (totalLength st) (currentIndex st))
       (deferred st) (notified st)).

(** [currentIndex++] of the [finally] handler *)
Definition bump (st : state V) : state V :=
  State (totalLength st) (S (currentIndex st)) (defers st)
    (pendingCount st) (all st) (deferred st) (notified st).

(** The handlers attached to one transfer: on success notify, then
    resolve [defers[currentIndex]]; on failure reject it; in both cases
    increment [currentIndex] afterwards. *)
Definition settle (st : state V) (ev : event) : state V :=
  bump
    match ev_outcome ev with
    | Ok => defer_resolve (currentIndex st)
              (notify_progress (report (ev_key ev)) st)
    | Err e => defer_reject (currentIndex st) e st
    end.

(** The batch once its [totalLength] deferreds are created and
    [Q.all(promises)] is called: with no promise at all, [Q.all] is
    fulfilled at once. *)
Definition start (n : nat) : state V :=
  let st := State n 0 (replicate n Deferred.Pending) n
              Deferred.Pending Deferred.Pending [] in
  if n =? 0 then all_resolve st else st.

Definition run (n : nat) (evs : list event) : state V :=
  foldl settle (start n) evs.

End Run.

Definition is_ok (ev : event) : bool :=
  match ev_outcome ev with Ok => true | Err _ => false end.

(** The error of the first transfer that failed. *)
Fixpoint first_err (evs : list event) : option error :=
  match evs with
  | [] => None
  | ev :: evs' =>
      match ev_outcome ev with
      | Err e => Some e
      | Ok => first_err evs'
      end
  end.

End Batch.

(** ** The batches of [uploadProject], [downloadProject], [cloneProject] *)
Module Transfer.
Import FileTree.

(** [key.substr(1)] *)
Definition substr1 (key : string) : string :=
  match key with
  | EmptyString => EmptyString
  | String _ rest => rest
  end.

(** [uploadProject] from the point where both trees are known.  The
    promise is fulfilled with the project id; progress carries the remote
    path, which is the key. *)
Definition uploadProject (projectId : string) (localFiles remoteFiles : loc)
    (h : heap) (evs : list Batch.event) : Batch.state string :=
  let keys := Upload.uploadKeys localFiles remoteFiles h in
  Batch.run (λ key, key) (Deferred.resolve projectId) (length keys) evs.

(** [downloadProject]: the remote tree is filtered against the local one;
    every remaining key is downloaded to [path.join(projectDir,
    key.substr(1))], and [downloadFile] is fulfilled with that local path.
    [join] stands for [path.join]. *)
Definition downloadProject (join : string → string → string)
    (projectDir projectId : string) (localFiles remoteFiles : loc)
    (h : heap) (evs : list Batch.event) : Batch.state string :=
  let h' := (filterFiles remoteFiles localFiles h).2 in
  let keys := FileTree.keys (h' remoteFiles) in
  Batch.run (λ key, join projectDir (substr1 key))
    (Deferred.resolve projectId) (length keys) evs.

(** [array.reduce(f)] without an initial value: a [TypeError] on the empty
    array. *)
Definition reduce {A} (f : A → A → A) (l : list A) : option A :=
  match l with
  | [] => None
  | x :: l' => Some (foldl f x l')
  end.

(** [totalLength] of [cloneProject] *)
Definition clone_totalLength (files : gmap string entry) : option nat :=
  reduce Nat.add
    ((λ key, match files !! key with
             | Some (Entry File _) => 1
             | _ => 0
             end) <$> keys files).

(** The keys for which [cloneProject] starts a download. *)
Definition clone_keys (files : gmap string entry) : list string :=
  filter (λ key, type <$> files !! key = Some File) (keys files).

(** [cloneProject] from the point where the remote tree [files] is known.
    When the computation of [totalLength] throws, the exception stays in
    the promise of the [then] call, which nobody reads: no download is
    started and the promise returned stays pending.  After the last
    download the project id is saved; [saved] tells whether that
    succeeded, and the rejection handler of that step throws on its
    undeclared [error]. *)
Definition cloneProject (join : string → string → string)
    (destDir : string) (saved : bool) (files : gmap string entry)
    (evs : list Batch.event) : Batch.state string :=
  match clone_totalLength files with
  | None =>
      Batch.State 0 0 [] 0 Deferred.Pending Deferred.Pending []
  | Some totalLength =>
      Batch.run (λ key, join destDir key)
        (λ d, if saved then Deferred.resolve destDir d else d)
        totalLength evs
  end.

End Transfer.

(** ** What a run of a batch leaves behind *)
Module BatchModel.
Import Batch.

(** The settled state of the deferred created for a transfer. *)
Definition to_state (ev : event) : Deferred.state unit error :=
  match ev_outcome ev with
  | Ok => Deferred.Fulfilled tt
  | Err e => Deferred.Rejected e
  end.

(** The completions up to the first failure. *)
Fixpoint ok_prefix (evs : list event) : list event :=
  match evs with
  | [] => []
  | ev :: evs' => if is_ok ev then ev :: ok_prefix evs' else []
  end.

(** The state of a batch of [n] transfers after the completions [evs]. *)
Record inv {V : Type} (report : string → string)
    (finish : Deferred.state V error → Deferred.state V error)
    (n : nat) (evs : list event) (st : state V) : Prop := Inv {
  inv_total : totalLength st = n;
  inv_index : currentIndex st = length evs;
  inv_defers :
    defers st =
    (to_state <$> evs) ++ replicate (n - length evs) Deferred.Pending;
  inv_notified :
    notified st =
    imap (λ i ev, Progress (report (ev_key ev)) n i) (ok_prefix evs);
  inv_failed : ∀ e, first_err evs = Some e →
    all st = Deferred.Rejected e ∧ deferred st = Deferred.Rejected e;
  inv_running : first_err evs = None → length evs < n →
    pendingCount st = n - length evs ∧
    all st = Deferred.Pending ∧ deferred st = Deferred.Pending;
  inv_done : first_err evs = None → length evs = n →
    all st = Deferred.Fulfilled tt ∧
    deferred st = finish Deferred.Pending
}.

End BatchModel.

(** ** The progress contract as the specification words it

    Every completion, successful or not, adds one progress event with the
    path of the task, the number of tasks and the number of completions so
    far. *)
Module ProgressContract.
Import Batch.

Definition progress_per_completion {V} (report : string → string)
    (run : list event → state V) (n : nat)
    (evs : list event) (ev : event) : Prop :=
  notified (run (evs ++ [ev])) =
  notified (run evs) ++ [Progress (report (ev_key ev)) n (length evs)].

End ProgressContract.

(** ** [buildProject] and its poller

    A run of [buildProject] is driven by the responses of the build service
    and by the ticks of the timer that [pollBuild] sets.  One step is one
    callback of the source together with the promise reactions it
    triggers.  The state keeps what the closures of the source share and,
    in [trace], the calls made, in the order in which they are made. *)
Module Build.

Definition error := string.

(** The build parameters; a property that is absent is [None]. *)
Record params := Params {
  platform : option string;
  android_webview : option string;
  android_arch : option string;
  framework_version : option string;
  purpose : option string
}.

(** [!v] for a property that is a string or [undefined]. *)
Definition falsy (v : option string) : bool :=
  match v with
  | None => true
  | Some s => bool_decide (s = "")
  end.

(** The two assignments of defaults at the head of [buildProject]. *)
Definition with_defaults (p : params) : params :=
  let p1 :=
    if falsy (framework_version p)
    then Params (platform p) (android_webview p) (android_arch p)
           (Some "3.5") (purpose p)
    else p in
  if falsy (purpose p1)
  then Params (platform p1) (android_webview p1) (android_arch p1)
         (framework_version p1) (Some "debug")
  else p1.

(** [JSON.parse(response).result] of a status request. *)
Record status_result := StatusResult {
  finished : bool;
  status : string;
  description : string
}.

(** The requests sent through [_post]. *)
Inductive request :=
| Submit (p : params)              (* buildRoot *)
| Status (queueId : string)        (* buildRoot + '/status/' + queueId *)
| Result (queueId : string).       (* buildRoot + '/result/' + queueId *)

Inductive action :=
| Post (r : request)
| ClearInterval
| PollNotify (d : string)
| PollResolve (d : string)
| PollReject (e : error)
| BuildResolve (v : string)
| BuildReject (e : error).

Inductive event :=
| SubmitOk (queueId : string)      (* the submit request succeeded *)
| SubmitErr (e : error)
| Tick                             (* the timer of [pollBuild] fires *)
| StatusOk (r : status_result)     (* a status request succeeded *)
| StatusErr (e : error)
| PollResultOk (error_message : string)  (* result request of [pollBuild] *)
| PollResultErr (e : error)
| BuildResultOk (result : string)  (* result request of [buildProject] *)
| BuildResultErr (e : error).

Record state := State {
  queue : option string;           (* [queueId], once known *)
  counter : nat;
  interval : bool;                 (* the timer is set *)
  submitting : bool;               (* the submit request is in flight *)
  polls : nat;                     (* status requests in flight *)
  poll_results : nat;              (* result requests of [pollBuild] in flight *)
  build_results : nat;             (* result requests of [buildProject] in flight *)
  poll : Deferred.state string error;     (* [deferred] of [pollBuild] *)
  build : Deferred.state string error;    (* [deferred] of [buildProject] *)
  notified : list string;          (* progress seen by the caller *)
  trace : list action
}.

Definition log (a : action) (st : state) : state :=
  State (queue st) (counter st) (interval st) (submitting st) (polls st)
    (poll_results st) (build_results st) (poll st) (build st) (notified st)
    (trace st ++ [a]).

Definition set_poll (d : Deferred.state string error) (st : state) : state :=
  State (queue st) (counter st) (interval st) (submitting st) (polls st)
    (poll_results st) (build_results st) d (build st) (notified st)
    (trace st).

Definition set_build (d : Deferred.state string error) (st : state) : state :=
  State (queue st) (counter st) (interval st) (submitting st) (polls st)
    (poll_results st) (build_results st) (poll st) d (notified st)
    (trace st).

Definition set_inflight (p pr br : nat) (st : state) : state :=
  State (queue st) (counter st) (interval st) (submitting st) p pr br
    (poll st) (build st) (notified st) (trace st).

(** [clearInterval(interval)] *)
Definition clear_interval (st : state) : state :=
  log ClearInterval
    (State (queue st) (counter st) false (submitting st) (polls st)
       (poll_results st) (build_results st) (poll st) (build st)
       (notified st) (trace st)).

Definition the_queue (st : state) : string := default "" (queue st).

(** [this._post(buildRoot + '/status/' + queueId)] *)
Definition post_status (st : state) : state :=
  set_inflight (S (polls st)) (poll_results st) (build_results st)
    (log (Post (Status (the_queue st))) st).

(** [this._post(buildRoot + '/result/' + queueId)] inside [pollBuild] *)
Definition post_poll_result (st : state) : state :=
  set_inflight (polls st) (S (poll_results st)) (build_results st)
    (log (Post (Result (the_queue st))) st).

(** [this._post(buildRoot + '/result/' + queueId)] in the fulfilment handler
    of [pollBuild(queueId).then] *)
Definition post_build_result (st : state) : state :=
  set_inflight (polls st) (poll_results st) (S (build_results st))
    (log (Post (Result (the_queue st))) st).

(** [deferred.resolve(v)] and [deferred.reject(e)] of [buildProject] *)
Definition build_resolve (v : string) (st : state) : state :=
  log (BuildResolve v) (set_build (Deferred.resolve v (build st)) st).
Definition build_reject (e : error) (st : state) : state :=
  log (BuildReject e) (set_build (Deferred.reject e (build st)) st).

(** [deferred.resolve(d)] and [deferred.reject(e)] of [pollBuild] *)
Definition poll_resolve (d : string) (st : state) : state :=
  log (PollResolve d) (set_poll (Deferred.resolve d (poll st)) st).
Definition poll_reject (e : error) (st : state) : state :=
  log (PollReject e) (set_poll (Deferred.reject e (poll st)) st).

(** [deferred.notify(result.description)] of [pollBuild]; the progress
    handler of [buildProject] passes it on to its own deferred. *)
Definition poll_notify (d : string) (st : state) : state :=
  let st' := log (PollNotify d) st in
  if Deferred.is_pending (poll st) && Deferred.is_pending (build st)
  then State (queue st') (counter st') (interval st') (submitting st')
         (polls st') (poll_results st') (build_results st') (poll st')
         (build st') (notified st' ++ [d]) (trace st')
  else st'.

(** The handlers of [pollBuild(queueId).then(...)]: they run once, when the
    deferred of the poller leaves the pending state during a step that
    started in [before]. *)
Definition react (before st : state) : state :=
  match poll before, poll st with
  | Deferred.Pending, Deferred.Fulfilled _ => post_build_result st
  | Deferred.Pending, Deferred.Rejected e => build_reject e st
  | _, _ => st
  end.

(** The function given to [setInterval]. *)
Definition on_tick (st : state) : state :=
  let st1 :=
    if counter st =? 80
    then poll_reject "Build timed out" (clear_interval st)
    else st in
  let st2 :=
    State (queue st1) (S (counter st1)) (interval st1) (submitting st1)
      (polls st1) (poll_results st1) (build_results st1) (poll st1)
      (build st1) (notified st1) (trace st1) in
  react st (post_status st2).

(** The fulfilment handler of a status request. *)
Definition on_status (r : status_result) (st : state) : state :=
  let st1 := poll_notify (description r) st in
  let st2 :=
    if finished r then
      let st' := clear_interval st1 in
      if bool_decide (status r = "finish")
      then poll_resolve (description r) st'
      else post_poll_result st'
    else st1 in
  react st st2.

(** The rejection handler of a status request. *)
Definition on_status_error (e : error) (st : state) : state :=
  react st (poll_reject e (clear_interval st)).

(** [buildProject(projectId, params)] up to its [return]: defaults, the test
    of the platform, and the submit request. *)
Definition buildProject (arg : option params) : state :=
  let p := with_defaults (default (Params None None None None None) arg) in
  let st0 := State None 0 false false 0 0 0 Deferred.Pending Deferred.Pending
               [] [] in
  let st1 :=
    if falsy (platform p) then build_reject "Must specify build platform." st0
    else st0 in
  let st2 := log (Post (Submit p)) st1 in
  State (queue st2) (counter st2) (interval st2) true (polls st2)
    (poll_results st2) (build_results st2) (poll st2) (build st2)
    (notified st2) (trace st2).

(** The fulfilment handler of the submit request: [pollBuild(queueId)] sets
    the timer. *)
Definition pollBuild (q : string) (st : state) : state :=
  State (Some q) 0 true false (polls st) (poll_results st) (build_results st)
    Deferred.Pending (build st) (notified st) (trace st).

Definition submit_done (st : state) : state :=
  State (queue st) (counter st) (interval st) false (polls st)
    (poll_results st) (build_results st) (poll st) (build st) (notified st)
    (trace st).

(** One callback.  A callback cannot fire without its cause: a response
    needs its request in flight, a tick needs the timer set. *)
Definition step (st : state) (ev : event) : option state :=
  match ev with
  | SubmitOk q =>
      if submitting st then Some (pollBuild q st) else None
  | SubmitErr e =>
      if submitting st then Some (build_reject e (submit_done st)) else None
  | Tick =>
      if interval st then Some (on_tick st) else None
  | StatusOk r =>
      match polls st with
      | S n => Some (on_status r
                       (set_inflight n (poll_results st) (build_results st) st))
      | 0 => None
      end
  | StatusErr e =>
      match polls st with
      | S n => Some (on_status_error e
                       (set_inflight n (poll_results st) (build_results st) st))
      | 0 => None
      end
  | PollResultOk m =>
      match poll_results st with
      | S n => let st' := set_inflight (polls st) n (build_results st) st in
               Some (react st' (poll_reject m st'))
      | 0 => None
      end
  | PollResultErr e =>
      match poll_results st with
      | S n => let st' := set_inflight (polls st) n (build_results st) st in
               Some (react st' (poll_reject e st'))
      | 0 => None
      end
  | BuildResultOk v =>
      match build_results st with
      | S n => Some (build_resolve v
                       (set_inflight (polls st) (poll_results st) n st))
      | 0 => None
      end
  | BuildResultErr e =>
      match build_results st with
      | S n => Some (build_reject e
                       (set_inflight (polls st) (poll_results st) n st))
      | 0 => None
      end
  end.

Fixpoint run (st : state) (evs : list event) : option state :=
  match evs with
  | [] => Some st
  | ev :: evs' =>
      match step st ev with
      | Some st' => run st' evs'
      | None => None
      end
  end.

(** The status requests among the calls made. *)
Definition is_status_post (a : action) : bool :=
  match a with Post (Status _) => true | _ => false end.

Definition status_posts (t : list action) : list action :=
  List.filter is_status_post t.

End Build.

(** ** Schedules of the build service used to exercise the poller *)
Module BuildRuns.
Import Build.

(** The timer fires and the status request it sends is answered before the
    next tick, once for every answer of [rs]. *)
Definition rounds (rs : list status_result) : list event :=
  flat_map (λ r, [Tick; StatusOk r]) rs.

(** The calls made during such rounds while the job is not finished. *)
Definition rounds_trace (q : string) (rs : list status_result) : list action :=
  flat_map (λ r, [Post (Status q); PollNotify (description r)]) rs.

(** The events of an execution in which the job is never reported finished
    and no request fails: ticks, and status responses with [finished] false. *)
Definition quiet (ev : event) : bool :=
  match ev with
  | Tick => true
  | StatusOk r => negb (finished r)
  | _ => false
  end.

Definition is_tick (ev : event) : bool :=
  match ev with Tick => true | _ => false end.

(** The ticks among the events. *)
Definition ticks (evs : list event) : nat :=
  length (List.filter is_tick evs).

(** The poller after [t] ticks of a quiet execution that started with the
    build deferred in state [b] and [n0] status requests sent. *)
Definition polling (q : string) (b : Deferred.state string error) (n0 t : nat)
    (st : state) : Prop :=
  queue st = Some q ∧ counter st = t ∧ submitting st = false ∧
  length (status_posts (trace st)) = n0 + t ∧
  (t ≤ 80 →
   interval st = true ∧ poll st = Deferred.Pending ∧ build st = b) ∧
  (80 < t →
   t = 81 ∧ interval st = false ∧
   poll st = Deferred.Rejected "Build timed out" ∧
   build st = Deferred.reject "Build timed out" b).

Definition android : params :=
  Params (Some "android") None None None None.

Definition building : status_result :=
  StatusResult false "process" "Building".

End BuildRuns.

(** A poller with one status request in flight, as [buildProject] leaves it
    after the submit response and the first tick. *)
Definition polling_Q1 : Build.state :=
  Build.State (Some "Q1") 1 true false 1 0 0 Deferred.Pending Deferred.Pending
    []
    [Build.Post (Build.Submit
                   (Build.Params (Some "android") None None (Some "3.5")
                      (Some "debug")));
     Build.Post (Build.Status "Q1")].

(** ** [getLocalProjectFiles] *)
Module Scan.
Import FileTree.

Definition error := string.

(** What the file system holds at a name of the listing. *)
Inductive node :=
| NDir                             (* [lstatSync(...).isDirectory()] *)
| NFile (data : string)            (* a file and its contents *)
| NUnreadable (e : error).         (* a file that [readFile] fails on *)

(** The result of [shell.ls('-RA', projectDir)], names relative to the
    root, each with its node. *)
Abbreviation listing := (list (string * node)).

(** [path.join('/', file)], separators turned into slashes. *)
Definition key_of (file : string) : string := String "/" file.

(** [name.indexOf('node_modules') !== 0] *)
Definition listed (name : string) : bool :=
  negb (Str.indexOf name "node_modules" =? 0)%Z.

Definition kind_of (n : node) : kind :=
  match n with NDir => Dir | _ => File end.

(** [files[key].hash = checksum] *)
Definition set_hash (c : string) (e : entry) : entry :=
  Entry (type e) (Some c).

(** [Q.all(promises)] of checksum promises that have settled: the results in
    order, or the error of the first one that was rejected. *)
Fixpoint q_all (promises : list (string * (error + string)))
    : error + list (string * string) :=
  match promises with
  | [] => inr []
  | (_, inl e) :: _ => inl e
  | (key, inr c) :: rest =>
      match q_all rest with
      | inl e => inl e
      | inr rs => inr ((key, c) :: rs)
      end
  end.

Section Scanner.

(** [crc32(data).toString('hex')] *)
Variable crc32hex : string → string.

(** The body of [list.forEach]: the entry is stored under its key, and a
    file adds the promise of its checksum. *)
Definition visit
    (acc : gmap string entry * list (string * (error + string)))
    (f : string * node)
    : gmap string entry * list (string * (error + string)) :=
  let key := key_of f.1 in
  match f.2 with
  | NDir => (<[key := Entry Dir None]> acc.1, acc.2)
  | NFile data =>
      (<[key := Entry File None]> acc.1,
       acc.2 ++ [(key, inr (crc32hex data))])
  | NUnreadable e =>
      (<[key := Entry File None]> acc.1, acc.2 ++ [(key, inl e)])
  end.

(** [getLocalProjectFiles(projectDir)]; [root] is the listing of the
    directory, [None] when [fs.exists] answers no. *)
Definition getLocalProjectFiles (projectDir : string) (root : option listing)
    : Deferred.state (gmap string entry) error :=
  match root with
  | None => Deferred.Rejected (projectDir +:+ " does not exist")
  | Some ls =>
      let list := filter (λ f, listed f.1 = true) ls in
      let scanned := foldl visit (∅, []) list in
      match q_all scanned.2 with
      | inl e => Deferred.Rejected e
      | inr results =>
          let files :=
            foldl (λ fs r, alter (set_hash r.2) r.1 fs) scanned.1 results in
          Deferred.Fulfilled (delete "/.monaca/local_properties.json" files)
      end
  end.

(** The two components that the loop builds. *)
Definition stored (m : gmap string entry) (f : string * node)
    : gmap string entry :=
  <[key_of f.1 := Entry (kind_of f.2) None]> m.

Definition promised (f : string * node) : list (string * (error + string)) :=
  match f.2 with
  | NDir => []
  | NFile data => [(key_of f.1, inr (crc32hex data))]
  | NUnreadable e => [(key_of f.1, inl e)]
  end.

Definition checksums (f : string * node) : list (string * string) :=
  match f.2 with
  | NFile data => [(key_of f.1, crc32hex data)]
  | _ => []
  end.

(** The entry a readable node ends up as. *)
Definition entry_of (n : node) : entry :=
  match n with
  | NDir => Entry Dir None
  | NFile data => Entry File (Some (crc32hex data))
  | NUnreadable _ => Entry File None
  end.

End Scanner.

Definition readable (n : node) : bool :=
  match n with NUnreadable _ => false | _ => true end.

End Scan.

(** ** The coverage of the scan as the specification words it

    Every entry under the root is in the tree, except the entries under the
    [node_modules] directory and the local metadata file. *)
Module ScanContract.
Import FileTree Scan.

(** [name] is the directory [node_modules] of the root or lies under it. *)
Definition under_node_modules (name : string) : bool :=
  bool_decide (name = "node_modules") || Str.starts_with "node_modules/" name.

Definition covers_all_but_reserved (crc32hex : string → string)
    (ls : listing) (files : gmap string entry) : Prop :=
  ∀ name n, (name, n) ∈ ls →
    under_node_modules name = false →
    key_of name ≠ "/.monaca/local_properties.json" →
    files !! key_of name = Some (entry_of crc32hex n).

End ScanContract.

(** ** Sample projects *)

(** The test trees of the specification, each in an object of its own. *)
Definition tree_a111 : gmap string FileTree.entry :=
  {[ "/a.js" := FileTree.Entry FileTree.File (Some "111") ]}.
Definition tree_a222 : gmap string FileTree.entry :=
  {[ "/a.js" := FileTree.Entry FileTree.File (Some "222") ]}.
Definition heap_same : FileTree.heap := λ _, tree_a111.
Definition heap_changed : FileTree.heap :=
  λ l, match l with 0 => tree_a111 | _ => tree_a222 end.

(** A local project with a directory, a page that the remote store has with
    another checksum, a hidden metadata file and a file outside the scope. *)
Definition heap_upload : FileTree.heap :=
  λ l, match l with
       | 0 => {[ "/www" := FileTree.Entry FileTree.Dir None;
                 "/www/index.html" := FileTree.Entry FileTree.File (Some "1a");
                 "/.monaca/secret.json" := FileTree.Entry FileTree.File (Some "2b");
                 "/platforms/x.js" := FileTree.Entry FileTree.File (Some "3c") ]}
       | _ => {[ "/www/index.html" := FileTree.Entry FileTree.File (Some "ff");
                 "/.monaca/secret.json" := FileTree.Entry FileTree.File (Some "00") ]}
       end.


(** A project with a top-level file whose name merely begins like the
    dependency directory. *)
Definition listing_backup : list (string * Scan.node) :=
  [("www", Scan.NDir); ("www/index.html", Scan.NFile "<html>");
   ("node_modules.bak", Scan.NFile "old")].

(** A stand-in checksum for the examples. *)
Definition sample_crc (data : string) : string := "crc:" +:+ data.

(** The tree that the scan of [listing_backup] yields. *)
Definition tree_backup : gmap string FileTree.entry :=
  {[ "/www" := FileTree.Entry FileTree.Dir None;
     "/www/index.html" := FileTree.Entry FileTree.File (Some "crc:<html>") ]}.

From stdpp Require Import pretty.

(** * The stores on disk, the session and the remaining operations *)

(** ** JSON objects

    The data file and the config file hold the text of a JSON object, which
    the code reads with [JSON.parse], changes as an object and writes back
    with [JSON.stringify].  An object has its own properties and inherits
    those of [Object.prototype]. *)
Module Json.

(** A JSON value: a string, or any other value, given by its text. *)
Inductive value := Str (s : string) | Other (text : string).

Global Instance value_eq_dec : EqDecision value.
Proof. solve_decision. Defined.

(** What [ob[key]] evaluates to: [undefined], a value of the document, or a
    member of [Object.prototype]. *)
Inductive jsval := Undefined | Value (v : value) | Native (name : string).

Global Instance jsval_eq_dec : EqDecision jsval.
Proof. solve_decision. Defined.

(** The property names of [Object.prototype]. *)
Definition object_prototype : list string :=
  ["constructor"; "toString"; "toLocaleString"; "valueOf"; "hasOwnProperty";
   "isPrototypeOf"; "propertyIsEnumerable"; "__defineGetter__";
   "__lookupGetter__"; "__defineSetter__"; "__lookupSetter__"; "__proto__"].

(** [ob[key]] *)
Definition get (ob : gmap string value) (key : string) : jsval :=
  match ob !! key with
  | Some v => Value v
  | None => if bool_decide (key ∈ object_prototype) then Native key
            else Undefined
  end.

(** [ob[key] = v]: an own property is created or updated, except that
    [__proto__], when it is not an own property, is the accessor of the
    prototype, whose setter ignores a value that is not an object. *)
Definition put (ob : gmap string value) (key : string) (v : value)
    : gmap string value :=
  if bool_decide (key = "__proto__") && bool_decide (ob !! key = None)
  then ob
  else <[key := v]> ob.

(** [ob[key] = v] followed by [JSON.stringify], for a [v] that may be
    [undefined]: a property whose value is [undefined] is not written. *)
Definition put_opt (ob : gmap string value) (key : string) (v : option value)
    : gmap string value :=
  match v with
  | Some x => put ob key x
  | None => delete key ob
  end.

(** The text of a file as [JSON.parse] sees it: the text of an object, or a
    text on which it throws.  Texts of other JSON values are left out. *)
Inductive doc := Object (ob : gmap string value) | Garbage (text : string).

Global Instance doc_eq_dec : EqDecision doc.
Proof. solve_decision. Defined.

End Json.

(** ** The file system

    Paths are absolute and normalised: a path is the list of its segments
    below the root.  Operations fail only for the structure of the tree (a
    missing parent, a directory in the place of a file). *)
Module Fs.

Definition error := string.

Record fs := Fs {
  dirs : gset (list string);
  files : gmap (list string) Json.doc
}.

(** [path.dirname(p)] *)
Definition dirname (p : list string) : list string := take (length p - 1) p.

(** [p + ext] *)
Definition add_ext (p : list string) (ext : string) : list string :=
  match reverse p with
  | [] => [ext]
  | name :: rest => reverse rest ++ [name +:+ ext]
  end.

(** The path and its ancestors below the root. *)
Definition ancestors (p : list string) : list (list string) :=
  (λ n, take n p) <$> seq 1 (length p).

Definition is_dir (p : list string) (s : fs) : bool :=
  bool_decide (p = []) || bool_decide (p ∈ dirs s).

Definition is_file (p : list string) (s : fs) : bool :=
  negb (is_dir p s) && bool_decide (is_Some (files s !! p)).

(** [fs.exists(p)], [fs.existsSync(p)] *)
Definition exists_ (p : list string) (s : fs) : bool :=
  is_dir p s || is_file p s.

(** [shell.mkdir('-p', p)] *)
Definition mkdir_p (p : list string) (s : fs) : fs :=
  Fs (dirs s ∪ list_to_set (ancestors p)) (files s).

(** [fs.writeFile(p, d)] *)
Definition writeFile (p : list string) (d : Json.doc) (s : fs) : error + fs :=
  if is_dir p s then inl "EISDIR"
  else if is_dir (dirname p) s then inr (Fs (dirs s) (<[p := d]> (files s)))
  else inl "ENOENT".

(** [fs.readFile(p)] *)
Definition readFile (p : list string) (s : fs) : error + Json.doc :=
  if is_dir p s then inl "EISDIR"
  else match files s !! p with
       | Some d => inr d
       | None => inl "ENOENT"
       end.

(** [lockfile.lock(p, {wait: 10000})]: the lock file is created if it does
    not exist; a lock that is still there when the wait is over is an
    error. *)
Definition lock (p : list string) (s : fs) : error + fs :=
  if exists_ p s then inl "EEXIST" else writeFile p (Json.Garbage "") s.

(** [lockfile.unlock(p)]; its error is only printed. *)
Definition unlock (p : list string) (s : fs) : fs :=
  Fs (dirs s) (delete p (files s)).

End Fs.

(** ** The [Monaca] object *)
Module Client.

(** [this.tokens] *)
Record tokens := Tokens { api : option string; session : option string }.

(** [_body.result] of a login response, by the two properties that the
    code reads. *)
Record login_result := LoginResult {
  token : option Json.value;
  clientId : option Json.value
}.

Record monaca := Monaca {
  _loggedIn : bool;
  tokens_ : option tokens;           (* [this.tokens] *)
  loginBody : option login_result;
  _configFile : option (list string)
}.

(** [new Monaca(apiRoot)] *)
Definition new : monaca := Monaca false None None None.

End Client.

(** ** The config file: [setConfigFile] to [getAllConfigs] *)
Module Config.
Import Client.

Definition error := string.

(** An argument of a public method: [undefined], a string, or a value of
    another type. *)
Inductive arg := Undef | AStr (s : string) | NotString (text : string).

(** The errors thrown by the checks of the arguments. *)
Inductive thrown :=
| KeyMustExist | KeyMustBeString | ValueMustExist | ValueMustBeString.

(** A call that throws or returns. *)
Inductive call (A : Type) := Throws (t : thrown) | Returns (a : A).
Arguments Throws {A} t.
Arguments Returns {A} a.

(** The text of a path. *)
Definition show (p : list string) : string :=
  match p with
  | [] => "/"
  | _ => foldr (λ seg acc, "/" +:+ seg +:+ acc) "" p
  end.

Section Store.

(** [CONFIG_FILE]: [monaca_config.json] in [.cordova] under the home
    directory. *)
Variable CONFIG_FILE : list string.

(** [setConfigFile(configFile)] *)
Definition setConfigFile (configFile : list string) (m : monaca) (s : Fs.fs)
    : Deferred.state (list string) error * monaca :=
  let parentDir := Fs.dirname configFile in
  if Fs.exists_ parentDir s
  then (Deferred.Fulfilled configFile,
        Monaca (_loggedIn m) (tokens_ m) (loginBody m) (Some configFile))
  else (Deferred.Rejected
          ("Unable to set config file: " +:+ show parentDir +:+
           " does not exist."), m).

(** [this._configFile || CONFIG_FILE], the value [getConfigFile] resolves
    to. *)
Definition getConfigFile (m : monaca) : list string :=
  default CONFIG_FILE (_configFile m).

(** [_ensureConfigFile()] *)
Definition _ensureConfigFile (m : monaca) (s : Fs.fs)
    : Deferred.state (list string) error * Fs.fs :=
  let configFile := getConfigFile m in
  let parentDir := Fs.dirname configFile in
  let s1 :=
    if Fs.exists_ parentDir s then s
    else Fs.mkdir_p (Fs.dirname parentDir) s in
  if Fs.exists_ configFile s1 then (Deferred.Fulfilled configFile, s1)
  else match Fs.writeFile configFile (Json.Object ∅) s1 with
       | inl err => (Deferred.Rejected err, s1)
       | inr s2 => (Deferred.Fulfilled configFile, s2)
       end.

(** [getAllConfigs()] *)
Definition getAllConfigs (m : monaca) (s : Fs.fs)
    : Deferred.state (gmap string Json.value) error * Fs.fs :=
  match _ensureConfigFile m s with
  | (Deferred.Fulfilled configFile, s1) =>
      match Fs.readFile configFile s1 with
      | inl err => (Deferred.Rejected err, s1)
      | inr (Json.Garbage _) => (Deferred.Rejected "SyntaxError", s1)
      | inr (Json.Object settings) => (Deferred.Fulfilled settings, s1)
      end
  | (Deferred.Rejected err, s1) => (Deferred.Rejected err, s1)
  | (Deferred.Pending, s1) => (Deferred.Pending, s1)
  end.

(** [getConfig(key)] *)
Definition getConfig (key : arg) (m : monaca) (s : Fs.fs)
    : call (Deferred.state Json.jsval error * Fs.fs) :=
  match key with
  | Undef => Throws KeyMustExist
  | NotString _ => Throws KeyMustBeString
  | AStr k =>
      Returns
        match getAllConfigs m s with
        | (Deferred.Fulfilled settings, s1) =>
            (Deferred.Fulfilled (Json.get settings k), s1)
        | (Deferred.Rejected err, s1) => (Deferred.Rejected err, s1)
        | (Deferred.Pending, s1) => (Deferred.Pending, s1)
        end
  end.

(** The part that [setConfig] and [removeConfig] share: the file is locked,
    read, changed by [change] and written back; [change] also gives the
    value to resolve with.  The lock is released before the promise is
    settled. *)
Definition locked_update {V : Type}
    (change : gmap string Json.value → gmap string Json.value * V)
    (m : monaca) (s : Fs.fs) : Deferred.state V error * Fs.fs :=
  match _ensureConfigFile m s with
  | (Deferred.Fulfilled configFile, s1) =>
      let lockFile := Fs.add_ext configFile ".lock" in
      match Fs.lock lockFile s1 with
      | inl err => (Deferred.Rejected err, s1)
      | inr s2 =>
          match Fs.readFile configFile s2 with
          | inl err => (Deferred.Rejected err, Fs.unlock lockFile s2)
          | inr (Json.Garbage _) =>
              (Deferred.Rejected "SyntaxError", Fs.unlock lockFile s2)
          | inr (Json.Object ob) =>
              let (ob', v) := change ob in
              match Fs.writeFile configFile (Json.Object ob') s2 with
              | inl err => (Deferred.Rejected err, Fs.unlock lockFile s2)
              | inr s3 => (Deferred.Fulfilled v, Fs.unlock lockFile s3)
              end
          end
      end
  | (Deferred.Rejected err, s1) => (Deferred.Rejected err, s1)
  | (Deferred.Pending, s1) => (Deferred.Pending, s1)
  end.

(** [setConfig(key, value)] *)
Definition setConfig (key value : arg) (m : monaca) (s : Fs.fs)
    : call (Deferred.state string error * Fs.fs) :=
  match key, value with
  | Undef, _ => Throws KeyMustExist
  | NotString _, _ => Throws KeyMustBeString
  | AStr _, Undef => Throws ValueMustExist
  | AStr _, NotString _ => Throws ValueMustBeString
  | AStr k, AStr v =>
      Returns (locked_update (λ ob, (Json.put ob k (Json.Str v), v)) m s)
  end.

(** [removeConfig(key)] *)
Definition removeConfig (key : arg) (m : monaca) (s : Fs.fs)
    : call (Deferred.state Json.jsval error * Fs.fs) :=
  match key with
  | Undef => Throws KeyMustExist
  | NotString _ => Throws KeyMustBeString
  | AStr k =>
      Returns (locked_update (λ ob, (delete k ob, Json.get ob k)) m s)
  end.

End Store.
End Config.

(** ** The data file: [_loadAllData], [_saveAllData], [setData], [getData] *)
Module Data.

Definition error := string.

Section Store.

(** [USER_DATA_FILE]: [monaca.json] in [.cordova] under the home
    directory. *)
Variable USER_DATA_FILE : list string.

(** [_loadAllData()] *)
Definition _loadAllData (s : Fs.fs)
    : Deferred.state (gmap string Json.value) error :=
  if Fs.exists_ USER_DATA_FILE s then
    match Fs.readFile USER_DATA_FILE s with
    | inl err => Deferred.Rejected err
    | inr (Json.Garbage _) => Deferred.Rejected "SyntaxError"
    | inr (Json.Object data) => Deferred.Fulfilled data
    end
  else Deferred.Fulfilled ∅.

(** [_saveAllData(data)] *)
Definition _saveAllData (data : gmap string Json.value) (s : Fs.fs)
    : Deferred.state unit error * Fs.fs :=
  let dir := Fs.dirname USER_DATA_FILE in
  let s1 := if Fs.exists_ dir s then s else Fs.mkdir_p dir s in
  match Fs.writeFile USER_DATA_FILE (Json.Object data) s1 with
  | inl err => (Deferred.Rejected err, s1)
  | inr s2 => (Deferred.Fulfilled tt, s2)
  end.

(** [setData(key, value)]; [value] may be [undefined]. *)
Definition setData (key : string) (value : option Json.value) (s : Fs.fs)
    : Deferred.state (option Json.value) error * Fs.fs :=
  match _loadAllData s with
  | Deferred.Fulfilled data =>
      match _saveAllData (Json.put_opt data key value) s with
      | (Deferred.Fulfilled _, s1) => (Deferred.Fulfilled value, s1)
      | (Deferred.Rejected err, s1) => (Deferred.Rejected err, s1)
      | (Deferred.Pending, s1) => (Deferred.Pending, s1)
      end
  | Deferred.Rejected err => (Deferred.Rejected err, s)
  | Deferred.Pending => (Deferred.Pending, s)
  end.

(** [getData(key)] *)
Definition getData (key : string) (s : Fs.fs)
    : Deferred.state Json.jsval error :=
  match _loadAllData s with
  | Deferred.Fulfilled data => Deferred.Fulfilled (Json.get data key)
  | Deferred.Rejected err => Deferred.Rejected err
  | Deferred.Pending => Deferred.Pending
  end.

End Store.
End Data.

(** ** Well-formed trees and sample trees *)
Module FsModel.
Import Fs.

(** Every directory and every file lies in a directory. *)
Definition wf (s : fs) : Prop :=
  (∀ p, p ∈ dirs s → is_dir (dirname p) s = true) ∧
  (∀ p, is_Some (files s !! p) → is_dir (dirname p) s = true).

(** The same tree up to the contents of the file at [p]. *)
Definition same_but (p : list string) (s s' : fs) : Prop :=
  dirs s' = dirs s ∧ ∀ q, q ≠ p → files s' !! q = files s !! q.

End FsModel.

(** A home directory that holds nothing yet. *)
Definition home : list string := ["home"; "me"].
Definition config_file : list string := home ++ [".cordova"; "monaca_config.json"].
Definition data_file : list string := home ++ [".cordova"; "monaca.json"].

Definition fresh_home : Fs.fs := Fs.Fs {[ ["home"]; home ]} ∅.

(** The same home once [.cordova] exists. *)
Definition cordova_home : Fs.fs :=
  Fs.Fs {[ ["home"]; home; home ++ [".cordova"] ]} ∅.

(** A home whose config file holds one setting. *)
Definition proxy_home : Fs.fs :=
  Fs.Fs {[ ["home"]; home; home ++ [".cordova"] ]}
    {[ config_file := Json.Object {[ "http_proxy" := Json.Str "http://proxy:8080" ]} ]}.

(** A home whose config file does not parse. *)
Definition corrupt_home : Fs.fs :=
  Fs.Fs {[ ["home"]; home; home ++ [".cordova"] ]}
    {[ config_file := Json.Garbage "{oops" ]}.

(** [cordova_home] after [setConfig('http_proxy_host', '1.2.3.4')]. *)
Definition configured_home : Fs.fs :=
  Fs.Fs {[ ["home"]; home; home ++ [".cordova"] ]}
    {[ config_file := Json.Object {[ "http_proxy_host" := Json.Str "1.2.3.4" ]} ]}.

(** [proxy_home] with a lock that another process holds. *)
Definition locked_home : Fs.fs :=
  Fs.Fs {[ ["home"]; home; home ++ [".cordova"] ]}
    {[ config_file := Json.Object {[ "http_proxy" := Json.Str "http://proxy:8080" ]};
       Fs.add_ext config_file ".lock" := Json.Garbage "" ]}.

(** ** What every state of a build keeps *)
Module BuildInv.
Import Build.

(** The timer runs only while the poller is pending and has sent no result
    request; one status request has been sent per tick counted; before the
    submit response nothing has been counted. *)
Definition inv (st : state) : Prop :=
  counter st ≤ 81 ∧
  length (status_posts (trace st)) = counter st ∧
  (interval st = true →
   counter st ≤ 80 ∧ poll st = Deferred.Pending ∧ poll_results st = 0 ∧
   submitting st = false) ∧
  (submitting st = true →
   counter st = 0 ∧ poll_results st = 0 ∧ polls st = 0).

End BuildInv.

(** ** Requests to the cloud: [_get], [_post], [downloadFile], [uploadFile] *)
Module Http.
Import Client.

(** What a promise is rejected with. *)
Inductive reason :=
| StoreError (e : string)        (* an error of the file system or of [JSON.parse] *)
| Code (c : string)              (* [error.code] of a request that failed *)
| Message (v : Json.jsval)       (* the [message] of a response body *)
| Status (n : nat)               (* [response.statusCode] *)
| Text (s : string).             (* a message of the library *)

(** Exceptions. *)
Inductive exn := TypeError | SyntaxError.

(** A call that throws or returns. *)
Inductive js (A : Type) := Throw (e : exn) | Return (a : A).
Arguments Throw {A} e.
Arguments Return {A} a.

Inductive verb := GET | POST.

(** A request: [url] is the resource below [apiRoot]; a query parameter
    whose value is [undefined] is not sent. *)
Record request (D : Type) := Request {
  method : verb;
  url : string;
  qs : gmap string string;
  cookie : option string;
  proxy : Json.jsval;
  formData : option D
}.
Arguments Request {D} method url qs cookie proxy formData.
Arguments method {D} r.
Arguments url {D} r.
Arguments qs {D} r.
Arguments cookie {D} r.
Arguments proxy {D} r.
Arguments formData {D} r.

(** What the callback of a request receives: an error, or a response with
    its status code and body. *)
Inductive reply :=
| NetError (code : string)
| Response (statusCode : nat) (body : Json.doc).

(** The promise a method returns, the tree it leaves and the requests it
    has sent. *)
Record outcome (D V : Type) := Outcome {
  promise : Deferred.state V reason;
  tree : Fs.fs;
  sent : list (request D)
}.
Arguments Outcome {D V} promise tree sent.
Arguments promise {D V} o.
Arguments tree {D V} o.
Arguments sent {D V} o.

(** The form of the two requests on single files. *)
Inductive form :=
| ReadFile (path : string)
| SaveFile (path : string) (content : Json.doc).

(** [if (resource.charAt(0) !== '/') resource = '/' + resource] *)
Definition resource_path (resource : string) : string :=
  if Str.starts_with "/" resource then resource else "/" +:+ resource.

(** [{ api_token: this.tokens.api }] *)
Definition api_qs (t : tokens) : gmap string string :=
  match api t with
  | Some a => {[ "api_token" := a ]}
  | None => ∅
  end.

(** [JSON.parse(body).message]; [None] when this throws. *)
Definition message (body : Json.doc) : option Json.jsval :=
  match body with
  | Json.Object ob => Some (Json.get ob "message")
  | Json.Garbage _ => None
  end.

(** The callback of the request of [_get]. *)
Definition get_settle (r : reply) : Deferred.state Json.doc reason :=
  match r with
  | NetError code => Deferred.Rejected (Code code)
  | Response statusCode body =>
      if bool_decide (statusCode = 200) then Deferred.Fulfilled body
      else match message body with
           | Some v => Deferred.Rejected (Message v)
           | None => Deferred.Rejected (Status statusCode)
           end
  end.

(** The callback of the request of [_post]. *)
Definition post_settle (r : reply) : Deferred.state Json.doc reason :=
  match r with
  | NetError code => Deferred.Rejected (Code code)
  | Response statusCode body =>
      if bool_decide (statusCode = 200) || bool_decide (statusCode = 201)
      then Deferred.Fulfilled body
      else match message body with
           | Some v => Deferred.Rejected (Message v)
           | None =>
               Deferred.Rejected (Text ("Error code: " +:+ pretty statusCode))
           end
  end.

Section Client.
Variable CONFIG_FILE : list string.

(** [this.getConfig('http_proxy')]; the key is a string, so that the call
    returns. *)
Definition http_proxy (m : monaca) (s : Fs.fs)
    : Deferred.state Json.jsval string * Fs.fs :=
  match Config.getConfig CONFIG_FILE (Config.AStr "http_proxy") m s with
  | Config.Returns res => res
  | Config.Throws _ => (Deferred.Pending, s)
  end.

(** [_get(resource, data)]; [r] is what the server answers if it is asked.
    [this.tokens.api] is read before anything else. *)
Definition _get {D : Type} (resource : string) (data : gmap string string)
    (m : monaca) (s : Fs.fs) (r : reply) : js (outcome D Json.doc) :=
  match tokens_ m with
  | None => Throw TypeError
  | Some t =>
      let qs := data ∪ api_qs t in
      let resource := resource_path resource in
      Return
        (if negb (_loggedIn m)
         then Outcome
                (Deferred.Rejected
                   (Text "Must be logged in to use this method.")) s []
         else
           match http_proxy m s with
           | (Deferred.Fulfilled httpProxy, s1) =>
               Outcome (get_settle r) s1
                 [Request GET resource qs (session t) httpProxy None]
           | (Deferred.Rejected error, s1) =>
               Outcome (Deferred.Rejected (StoreError error)) s1 []
           | (Deferred.Pending, s1) => Outcome Deferred.Pending s1 []
           end)
  end.

(** [_post(resource, data)].  The tokens are read in the handler that sends
    the request; an exception there leaves the promise pending. *)
Definition _post {D : Type} (resource : string) (data : D)
    (m : monaca) (s : Fs.fs) (r : reply) : outcome D Json.doc :=
  let resource := resource_path resource in
  if negb (_loggedIn m)
  then Outcome
         (Deferred.Rejected (Text "Must be logged in to use this method."))
         s []
  else
    match http_proxy m s with
    | (Deferred.Fulfilled httpProxy, s1) =>
        match tokens_ m with
        | Some t =>
            Outcome (post_settle r) s1
              [Request POST resource (api_qs t) (session t) httpProxy
                 (Some data)]
        | None => Outcome Deferred.Pending s1 []
        end
    | (Deferred.Rejected error, s1) =>
        Outcome (Deferred.Rejected (StoreError error)) s1 []
    | (Deferred.Pending, s1) => Outcome Deferred.Pending s1 []
    end.

(** [downloadFile(projectId, remotePath, localPath)] *)
Definition downloadFile (projectId remotePath : string)
    (localPath : list string) (m : monaca) (s : Fs.fs) (r : reply)
    : outcome form (list string) :=
  let o := _post ("/project/" +:+ projectId +:+ "/file/read")
             (ReadFile remotePath) m s r in
  match promise o with
  | Deferred.Fulfilled data =>
      let parentDir := Fs.dirname localPath in
      let s1 := if Fs.exists_ parentDir (tree o) then tree o
                else Fs.mkdir_p parentDir (tree o) in
      match Fs.writeFile localPath data s1 with
      | inl error => Outcome (Deferred.Rejected (StoreError error)) s1 (sent o)
      | inr s2 => Outcome (Deferred.Fulfilled localPath) s2 (sent o)
      end
  | Deferred.Rejected error =>
      Outcome (Deferred.Rejected error) (tree o) (sent o)
  | Deferred.Pending => Outcome Deferred.Pending (tree o) (sent o)
  end.

(** [uploadFile(projectId, localPath, remotePath)] *)
Definition uploadFile (projectId : string) (localPath : list string)
    (remotePath : string) (m : monaca) (s : Fs.fs) (r : reply)
    : outcome form string :=
  if Fs.exists_ localPath s then
    match Fs.readFile localPath s with
    | inl error => Outcome (Deferred.Rejected (StoreError error)) s []
    | inr data =>
        let o := _post ("/project/" +:+ projectId +:+ "/file/save")
                   (SaveFile remotePath data) m s r in
        match promise o with
        | Deferred.Fulfilled _ =>
            Outcome (Deferred.Fulfilled remotePath) (tree o) (sent o)
        | Deferred.Rejected error =>
            Outcome (Deferred.Rejected error) (tree o) (sent o)
        | Deferred.Pending => Outcome Deferred.Pending (tree o) (sent o)
        end
    end
  else Outcome (Deferred.Rejected (Text "File does not exist.")) s [].

End Client.
End Http.

(** ** The session: [_login], [login], [relogin], [logout] *)
Module Session.
Import Client.

(** The arguments of [_login]: one (a relogin token, whatever [getData] has
    given) or two (email and password). *)
Inductive credentials :=
| Token (t : Json.jsval)
| Password (email password : string).

(** The form of the login request without its constant fields [language],
    [clientType] and [version]; [Some Json.Undefined] is a property whose
    value is [undefined]. *)
Record form := Form {
  f_token : option Json.jsval;
  f_email : option string;
  f_password : option string;
  f_clientId : option Json.jsval
}.

(** The body of the login response as [JSON.parse(body || '{}')] and the
    reads of [_body.result] and [_body.message] see it: nothing, a text that
    does not parse, [null], or a value with its [result] (if that is
    neither [undefined] nor [null]) and its [message]. *)
Inductive body :=
| NoBody
| Malformed (text : string)
| JsonNull
| Parsed (result : option login_result) (message : Json.jsval).

(** What the callback of the login request receives; [headers] is
    [response.caseless.dict]. *)
Inductive reply :=
| LoginError (code : string)
| LoginResponse (statusCode : nat) (headers : gmap string string)
    (body : body).

(** The promise returned, the exception that a callback has thrown, the
    object and the tree afterwards, and the requests sent with their
    proxy. *)
Record outcome := Outcome {
  promise : Deferred.state unit Http.reason;
  uncaught : option Http.exn;
  client : monaca;
  tree : Fs.fs;
  sent : list (Json.jsval * form)
}.

(** [Q.all] of two promises: rejected as soon as one of them is, with the
    reason of the one that is rejected first. *)
Definition q_all2 {A B E : Type} (first_rejects_first : bool)
    (a : Deferred.state A E) (b : Deferred.state B E)
    : Deferred.state (A * B) E :=
  match a, b with
  | Deferred.Fulfilled x, Deferred.Fulfilled y => Deferred.Fulfilled (x, y)
  | Deferred.Rejected e, Deferred.Rejected e' =>
      Deferred.Rejected (if first_rejects_first then e else e')
  | Deferred.Rejected e, _ => Deferred.Rejected e
  | _, Deferred.Rejected e' => Deferred.Rejected e'
  | _, _ => Deferred.Pending
  end.

(** [_body.result] *)
Definition result_of (b : body) : option login_result :=
  match b with
  | Parsed result _ => result
  | _ => None
  end.

Section Session.
Variable USER_DATA_FILE : list string.
Variable CONFIG_FILE : list string.

(** Whether a value of the data file other than a string is truthy. *)
Variable truthy_text : string → bool.

(** [if (clientId)] *)
Definition truthy (v : Json.jsval) : bool :=
  match v with
  | Json.Undefined => false
  | Json.Value (Json.Str s) => negb (bool_decide (s = EmptyString))
  | Json.Value (Json.Other text) => truthy_text text
  | Json.Native _ => true
  end.

(** [_login(token)] and [_login(email, password)].  The data file is read
    as it is when [_login] is called; [data_first] tells which of the two
    reads fails first when both fail; [r] is what the server answers if it
    is asked. *)
Definition _login (cred : credentials) (data_first : bool) (r : reply)
    (m : monaca) (s : Fs.fs) : outcome :=
  let form :=
    match cred with
    | Token t => Form (Some t) None None None
    | Password email password => Form None (Some email) (Some password) None
    end in
  let stored := Data.getData USER_DATA_FILE "clientId" s in
  let (proxy, s1) := Http.http_proxy CONFIG_FILE m s in
  match q_all2 data_first stored proxy with
  | Deferred.Rejected error =>
      Outcome (Deferred.Rejected (Http.StoreError error)) None m s1 []
  | Deferred.Pending => Outcome Deferred.Pending None m s1 []
  | Deferred.Fulfilled (clientId, httpProxy) =>
      let form :=
        if truthy clientId
        then Form (f_token form) (f_email form) (f_password form)
               (Some clientId)
        else form in
      let sent := [(httpProxy, form)] in
      match r with
      | LoginError code =>
          Outcome (Deferred.Rejected (Http.Code code)) None m s1 sent
      | LoginResponse _ _ (Malformed _) =>
          Outcome Deferred.Pending (Some Http.SyntaxError) m s1 sent
      | LoginResponse statusCode headers _body =>
          if bool_decide (statusCode = 200) then
            match result_of _body with
            | None => Outcome Deferred.Pending (Some Http.TypeError) m s1 sent
            | Some result =>
                match Data.setData USER_DATA_FILE "reloginToken"
                        (Client.token result) s1 with
                | (Deferred.Fulfilled _, s2) =>
                    match Data.setData USER_DATA_FILE "clientId"
                            (Client.clientId result) s2 with
                    | (Deferred.Fulfilled _, s3) =>
                        Outcome (Deferred.Fulfilled tt) None
                          (Monaca true
                             (Some (Tokens
                                      (headers !! "x-monaca-param-api-token")
                                      (headers !! "x-monaca-param-session")))
                             (Some result) (_configFile m))
                          s3 sent
                    | (Deferred.Rejected error, s3) =>
                        Outcome (Deferred.Rejected (Http.StoreError error))
                          None m s3 sent
                    | (Deferred.Pending, s3) =>
                        Outcome Deferred.Pending None m s3 sent
                    end
                | (Deferred.Rejected error, s2) =>
                    Outcome (Deferred.Rejected (Http.StoreError error))
                      None m s2 sent
                | (Deferred.Pending, s2) =>
                    Outcome Deferred.Pending None m s2 sent
                end
            end
          else
            match _body with
            | Parsed _ message =>
                Outcome (Deferred.Rejected (Http.Message message)) None m s1
                  sent
            | NoBody =>
                Outcome (Deferred.Rejected (Http.Message Json.Undefined))
                  None m s1 sent
            | _ => Outcome Deferred.Pending (Some Http.TypeError) m s1 sent
            end
      end
  end.

(** [login(email, password)] *)
Definition login (email password : string) : bool → reply → monaca → Fs.fs → outcome :=
  _login (Password email password).

(** [relogin()] *)
Definition relogin (data_first : bool) (r : reply) (m : monaca) (s : Fs.fs)
    : outcome :=
  match Data.getData USER_DATA_FILE "reloginToken" s with
  | Deferred.Fulfilled reloginToken =>
      _login (Token reloginToken) data_first r m s
  | Deferred.Rejected error =>
      Outcome (Deferred.Rejected (Http.StoreError error)) None m s []
  | Deferred.Pending => Outcome Deferred.Pending None m s []
  end.

(** [logout()] *)
Definition logout (m : monaca) (s : Fs.fs) : outcome :=
  match Data.setData USER_DATA_FILE "reloginToken" (Some (Json.Str EmptyString)) s with
  | (Deferred.Fulfilled _, s1) =>
      Outcome (Deferred.Fulfilled tt) None
        (Monaca false None (loginBody m) (_configFile m)) s1 []
  | (Deferred.Rejected error, s1) =>
      Outcome (Deferred.Rejected (Http.StoreError error)) None m s1 []
  | (Deferred.Pending, s1) => Outcome Deferred.Pending None m s1 []
  end.

(** A call of a method that changes the session or the place of the config
    file; each call is over before the next one is made. *)
Inductive op :=
| Login (email password : string) (data_first : bool) (r : reply)
| Relogin (data_first : bool) (r : reply)
| Logout
| SetConfigFile (configFile : list string).

Definition exec (st : monaca * Fs.fs) (o : op) : monaca * Fs.fs :=
  match o with
  | Login email password data_first r =>
      let res := login email password data_first r st.1 st.2 in
      (client res, tree res)
  | Relogin data_first r =>
      let res := relogin data_first r st.1 st.2 in
      (client res, tree res)
  | Logout =>
      let res := logout st.1 st.2 in
      (client res, tree res)
  | SetConfigFile configFile =>
      ((Config.setConfigFile configFile st.1 st.2).2, st.2)
  end.

(** The object and the tree after the calls [ops] on a new object. *)
Definition after (s : Fs.fs) (ops : list op) : monaca * Fs.fs :=
  foldl exec (Client.new, s) ops.

End Session.
End Session.

(** ** What every session keeps *)
Module SessionModel.
Import Client.

(** The tokens are there exactly when the object counts as logged in. *)
Definition consistent (m : monaca) : Prop :=
  _loggedIn m = true ↔ is_Some (tokens_ m).

End SessionModel.

(** A login response of the server, and a home that holds the config file
    and nothing else. *)
Definition login_ok : Session.reply :=
  Session.LoginResponse 200
    {[ "x-monaca-param-api-token" := "api1";
       "x-monaca-param-session" := "sess1" ]}
    (Session.Parsed
       (Some (Client.LoginResult (Some (Json.Str "tok1"))
                (Some (Json.Str "cid1"))))
       Json.Undefined).

(** The object after a login that was answered by [login_ok]. *)
Definition logged_in : Client.monaca :=
  Client.Monaca true (Some (Client.Tokens (Some "api1") (Some "sess1")))
    (Some (Client.LoginResult (Some (Json.Str "tok1"))
             (Some (Json.Str "cid1"))))
    None.

(** A project directory with one file in it. *)
Definition project_home : Fs.fs :=
  Fs.Fs {[ ["home"]; home; home ++ [".cordova"]; home ++ ["app"] ]}
    {[ config_file :=
         Json.Object {[ "http_proxy" := Json.Str "http://proxy:8080" ]};
       home ++ ["app"; "index.html"] := Json.Garbage "<html>" ]}.

(** The poller of [polling_Q1] after its status request has failed. *)
Definition failed_Q1 : Build.state :=
  Build.State (Some "Q1") 1 false false 0 0 0
    (Deferred.Rejected "ECONNRESET") (Deferred.Rejected "ECONNRESET") []
    [Build.Post (Build.Submit
                   (Build.Params (Some "android") None None (Some "3.5")
                      (Some "debug")));
     Build.Post (Build.Status "Q1");
     Build.ClearInterval; Build.PollReject "ECONNRESET";
     Build.BuildReject "ECONNRESET"].
(** * Properties *)

Module FileTreeFacts.
Import FileTree.

Lemma elem_of_keys (t : tree) (k : string) : k ∈ keys t ↔ is_Some (t !! k).
Proof.
  unfold keys. rewrite list_elem_of_fmap. split.
  - intros [[k' e] [-> Hin]]. apply elem_of_map_to_list in Hin. by exists e.
  - intros [e He]. exists (k, e). split; [done|]. by apply elem_of_map_to_list.
Qed.

Lemma filterStep_cases dst src h a :
  (filterStep dst src h a = h ∧ dropped dst src h a = false) ∨
  (filterStep dst src h a = <[dst := delete a (h dst)]> h ∧
   dropped dst src h a = true).
Proof.
  unfold filterStep, dropped.
  destruct (h dst !! a) as [d|] eqn:Hd; [|by left].
  destruct (decide (type d = Dir)) as [Hdir|Hdir].
  - right. by rewrite bool_decide_eq_true_2.
  - rewrite (bool_decide_eq_false_2 _ Hdir). simpl.
    destruct (h src !! a) as [s|]; [|by left].
    destruct (decide (hash d = hash s)) as [Hh|Hh].
    + right. by rewrite bool_decide_eq_true_2.
    + left. by rewrite bool_decide_eq_false_2.
Qed.

Lemma filterStep_other dst src h a l :
  l ≠ dst → filterStep dst src h a l = h l.
Proof.
  intros Hl. destruct (filterStep_cases dst src h a) as [[-> _]|[-> _]];
    [done|]. by rewrite fn_lookup_insert_ne.
Qed.

Lemma filterStep_lookup_ne dst src h a l k :
  k ≠ a → filterStep dst src h a l !! k = h l !! k.
Proof.
  intros Hk. destruct (filterStep_cases dst src h a) as [[-> _]|[-> _]];
    [done|].
  destruct (decide (l = dst)) as [->|Hl].
  - rewrite fn_lookup_insert. by rewrite lookup_delete_ne.
  - by rewrite fn_lookup_insert_ne.
Qed.

Lemma dropped_filterStep_ne dst src h a k :
  k ≠ a → dropped dst src (filterStep dst src h a) k = dropped dst src h k.
Proof.
  intros Hk. unfold dropped.
  by rewrite !(filterStep_lookup_ne dst src h a _ k Hk).
Qed.

Lemma fold_other dst src ks : ∀ h l,
  l ≠ dst → foldl (filterStep dst src) h ks l = h l.
Proof.
  induction ks as [|a ks IH]; intros h l Hl; simpl; [done|].
  rewrite IH by done. by apply filterStep_other.
Qed.

(** The loop invariant: a key visited by the loop is gone exactly when the
    test of the body held for it in the heap the loop started from. *)
Lemma fold_dst dst src ks : ∀ h k,
  foldl (filterStep dst src) h ks dst !! k =
  if bool_decide (k ∈ ks) && dropped dst src h k then None else h dst !! k.
Proof.
  induction ks as [|a ks IH]; intros h k; cbn [foldl].
  - rewrite bool_decide_eq_false_2; [done|]. apply not_elem_of_nil.
  - rewrite IH. destruct (decide (k = a)) as [->|Hk].
    + rewrite (bool_decide_eq_true_2 (a ∈ a :: ks)) by apply list_elem_of_here.
      cbn [andb].
      destruct (filterStep_cases dst src h a) as [[-> Hd]|[-> Hd]]; rewrite Hd.
      * by rewrite andb_false_r.
      * rewrite fn_lookup_insert, lookup_delete_eq. by destruct (_ && _).
    + rewrite dropped_filterStep_ne, filterStep_lookup_ne by done.
      assert (bool_decide (k ∈ a :: ks) = bool_decide (k ∈ ks)) as ->; [|done].
      apply bool_decide_ext. rewrite elem_of_cons.
      split; [intros [?|?]; done | by right].
Qed.

Lemma filterFiles_lookup dst src h k :
  (filterFiles dst src h).2 dst !! k =
  if dropped dst src h k then None else h dst !! k.
Proof.
  unfold filterFiles. simpl. rewrite fold_dst.
  destruct (dropped dst src h k) eqn:Hd; [|by rewrite andb_false_r].
  rewrite bool_decide_eq_true_2; [done|].
  apply elem_of_keys. unfold dropped in Hd.
  destruct (h dst !! k); [by eexists|done].
Qed.

End FileTreeFacts.


(** C1: the entries that [_filterFiles] leaves in the destination are exactly
    the file entries of the destination with no entry at the same path in
    the source or with a different hash there; directory entries go, file
    entries with an equal hash in the source go, entries absent from the
    source stay.  A tree of files diffed against itself (the same object, or
    another object with the same contents) ends up empty. *)
Theorem filterFiles_exact (dst src : FileTree.loc) (h : FileTree.heap) :
  (∀ k e, (FileTree.filterFiles dst src h).2 dst !! k = Some e ↔
     h dst !! k = Some e ∧ FileTree.type e = FileTree.File ∧
     (h src !! k = None ∨
      ∃ s, h src !! k = Some s ∧ FileTree.hash s ≠ FileTree.hash e)) ∧
  (∀ k e, h dst !! k = Some e → FileTree.type e = FileTree.Dir →
     (FileTree.filterFiles dst src h).2 dst !! k = None) ∧
  (∀ k e s, h dst !! k = Some e → FileTree.type e = FileTree.File →
     h src !! k = Some s → FileTree.hash s = FileTree.hash e →
     (FileTree.filterFiles dst src h).2 dst !! k = None) ∧
  (∀ k e, h dst !! k = Some e → FileTree.type e = FileTree.File →
     h src !! k = None →
     (FileTree.filterFiles dst src h).2 dst !! k = Some e) ∧
  ((∀ k e, h dst !! k = Some e → FileTree.type e = FileTree.File) →
   h src = h dst →
   (FileTree.filterFiles dst src h).2 dst = ∅).
Proof.
  assert (Hexact : ∀ k e,
    (FileTree.filterFiles dst src h).2 dst !! k = Some e ↔
     h dst !! k = Some e ∧ FileTree.type e = FileTree.File ∧
     (h src !! k = None ∨
      ∃ s, h src !! k = Some s ∧ FileTree.hash s ≠ FileTree.hash e)).
  { intros k e. rewrite FileTreeFacts.filterFiles_lookup.
    unfold FileTree.dropped.
    destruct (h dst !! k) as [d|] eqn:Hd;
      [|split; [done|intros [? _]; done]].
    destruct (FileTree.type d) eqn:Ht.
    - rewrite bool_decide_eq_false_2 by done. cbn [orb].
      destruct (h src !! k) as [s|] eqn:Hs.
      + case_bool_decide as Hh.
        * split; [done|].
          intros (He & _ & [Hn|(s' & Hs' & Hne)]); [done|].
          injection He as <-. injection Hs' as <-. congruence.
        * split.
          -- intros He. injection He as <-.
             split_and!; [done..|]. right. exists s. split; [done|congruence].
          -- intros [He _]. done.
      + split.
        * intros He. injection He as <-. split_and!; auto.
        * intros [He _]. done.
    - rewrite bool_decide_eq_true_2 by done. cbn [orb].
      split; [done|]. intros (He & Hf & _). injection He as <-. congruence. }
  split_and!; [done|..].
  - intros k e Hd Ht.
    destruct ((FileTree.filterFiles dst src h).2 dst !! k) as [e'|] eqn:Hr;
      [|done].
    apply Hexact in Hr as (Hd' & Hf & _). congruence.
  - intros k e s Hd Ht Hs Hh.
    destruct ((FileTree.filterFiles dst src h).2 dst !! k) as [e'|] eqn:Hr;
      [|done].
    apply Hexact in Hr as (Hd' & Hf & [Hn|(s' & Hs' & Hne)]); congruence.
  - intros k e Hd Ht Hs. apply Hexact. auto.
  - intros Hfiles Heq. apply map_eq. intros k. rewrite lookup_empty.
    destruct ((FileTree.filterFiles dst src h).2 dst !! k) as [e'|] eqn:Hr;
      [|done].
    apply Hexact in Hr as (Hd & Hf & [Hs|(s' & Hs & Hne)]);
      rewrite Heq in Hs; congruence.
Qed.

Lemma tree_a111_files k e :
  tree_a111 !! k = Some e → FileTree.type e = FileTree.File.
Proof.
  unfold tree_a111. intros [_ <-]%lookup_singleton_Some. reflexivity.
Qed.

Lemma filterFiles_exact_witness :
  (FileTree.filterFiles 0 1 heap_same).2 0 = ∅ ∧
  (FileTree.filterFiles 0 0 heap_same).2 0 = ∅.
Proof.
  split.
  - apply (filterFiles_exact 0 1 heap_same); [apply tree_a111_files|reflexivity].
  - apply (filterFiles_exact 0 0 heap_same); [apply tree_a111_files|reflexivity].
Defined.

Example filterFiles_hash_driven :
  (FileTree.filterFiles 0 1 heap_changed).2 0 = tree_a111.
Proof. vm_compute. reflexivity. Qed.

(** C10: when the destination and the source are two objects,
    [_filterFiles] leaves the source (and every other object) as it was; the
    destination only loses keys, and the call returns no value. *)
Theorem filterFiles_frame (dst src : FileTree.loc) (h : FileTree.heap) :
  dst ≠ src →
  (FileTree.filterFiles dst src h).1 = tt ∧
  (FileTree.filterFiles dst src h).2 src = h src ∧
  (∀ l, l ≠ dst → (FileTree.filterFiles dst src h).2 l = h l) ∧
  (∀ k, (FileTree.filterFiles dst src h).2 dst !! k = None ∨
        (FileTree.filterFiles dst src h).2 dst !! k = h dst !! k).
Proof.
  intros Hne. split_and!.
  - reflexivity.
  - unfold FileTree.filterFiles. cbn [snd].
    by apply FileTreeFacts.fold_other.
  - intros l Hl. unfold FileTree.filterFiles. cbn [snd].
    by apply FileTreeFacts.fold_other.
  - intros k. rewrite FileTreeFacts.filterFiles_lookup.
    destruct (FileTree.dropped dst src h k); auto.
Qed.

Lemma filterFiles_frame_witness :
  0 ≠ 1 ∧ (FileTree.filterFiles 0 1 heap_changed).2 1 = heap_changed 1.
Proof.
  assert (Hne : 0 ≠ 1) by lia.
  split; [exact Hne|].
  exact (proj1 (proj2 (filterFiles_frame 0 1 heap_changed Hne))).
Defined.

Module StrFacts.

Lemma indexOf_from_neg needle hay i :
  (0 ≤ i)%Z → (Str.indexOf_from needle hay i < 0)%Z →
  Str.starts_with needle hay = false ∧
  match hay with
  | EmptyString => True
  | String _ rest => (Str.indexOf_from needle rest (i + 1) < 0)%Z
  end.
Proof.
  intros Hi Hneg. destruct hay as [|a rest]; cbn [Str.indexOf_from] in Hneg;
    destruct (Str.starts_with needle _) eqn:Hsw; try lia; auto.
Qed.

Lemma split_hd c s :
  ∃ seg segs, Str.split c s = seg :: segs ∧
    (c ≠ "."%char → Str.starts_with "." seg = Str.starts_with "." s).
Proof.
  induction s as [|a s (seg & segs & Heq & Hsw)]; cbn [Str.split].
  - by exists EmptyString, [].
  - case_bool_decide as Hac.
    + subst a. exists EmptyString, (Str.split c s). split; [done|].
      intros Hc. cbn. by rewrite bool_decide_eq_false_2.
    + rewrite Heq. exists (String a seg), segs. split; [done|].
      intros _. cbn. by rewrite !andb_true_r.
Qed.

(** Without an occurrence of ["/."], no segment after the first begins with
    a dot. *)
Lemma no_slash_dot_tail s : ∀ i,
  (0 ≤ i)%Z → (Str.indexOf_from "/." s i < 0)%Z →
  existsb (Str.starts_with ".") (tail (Str.split "/" s)) = false.
Proof.
  induction s as [|a s IH]; intros i Hi Hneg; [done|].
  apply indexOf_from_neg in Hneg as [Hsw Hrest]; [|done].
  specialize (IH (i + 1)%Z ltac:(lia) Hrest).
  cbn [Str.split]. case_bool_decide as Ha.
  - subst a. cbn [tail].
    destruct (split_hd "/" s) as (seg & segs & Heq & Hdot).
    rewrite Heq in IH |- *. cbn [tail existsb] in IH |- *.
    rewrite IH, orb_false_r, Hdot by done.
    cbn in Hsw. destruct s as [|b s]; [done|]. cbn in Hsw |- *.
    by rewrite andb_true_r in Hsw |- *.
  - destruct (split_hd "/" s) as (seg & segs & Heq & _).
    rewrite Heq in IH |- *. done.
Qed.

End StrFacts.

Module RegexFacts.

Lemma run_lit w : ∀ bol s,
  Regex.run (Regex.lit w) bol s (λ _ _, true) = Str.starts_with w s.
Proof.
  induction w as [|a w IH]; intros bol s; [done|].
  cbn [Regex.lit Regex.run Str.starts_with Regex.cls_ok].
  destruct s as [|b s]; [done|]. rewrite IH.
  f_equal. apply bool_decide_ext. naive_solver.
Qed.

Lemma star_not_eol c s : ∀ bol,
  Regex.star (Regex.CNot c) bol s
    (λ b s', Regex.run Regex.REol b s' (λ _ _, true)) =
  negb (Str.has_char c s).
Proof.
  induction s as [|a s IH]; intros bol; [done|].
  cbn [Regex.star Regex.run Str.has_char Regex.cls_ok orb].
  by rewrite IH, negb_orb.
Qed.

Lemma test_from_bol_false r s :
  Regex.test_from (Regex.RSeq Regex.RBol r) false s = false.
Proof. induction s as [|a s IH]; [done|]. cbn. exact IH. Qed.

Lemma test_anchored r s :
  Regex.test (Regex.RSeq Regex.RBol r) s = Regex.run r true s (λ _ _, true).
Proof.
  unfold Regex.test. destruct s as [|a s]; cbn [Regex.test_from].
  - cbn. by rewrite orb_false_r.
  - rewrite test_from_bol_false. cbn. by rewrite orb_false_r.
Qed.

End RegexFacts.

Module UploadFacts.

(** What the regular expression of [fileFilter] accepts. *)
Lemma scope_re_test fn :
  Regex.test Upload.scope_re fn =
  match fn with
  | String a rest =>
      bool_decide (a = "/"%char) &&
      (Str.starts_with "www/" rest || Str.starts_with "merges/" rest ||
       Str.starts_with "plugins/" rest || negb (Str.has_char "/" rest))
  | EmptyString => false
  end.
Proof.
  unfold Upload.scope_re. rewrite RegexFacts.test_anchored.
  destruct fn as [|a rest]; [done|].
  cbn [Regex.run Regex.cls_ok]. f_equal.
  rewrite !RegexFacts.run_lit, RegexFacts.star_not_eol.
  by rewrite !orb_assoc.
Qed.

Lemma fileFilter_true fn :
  Upload.fileFilter fn = true →
  Upload.has_hidden_segment fn = false ∧
  (Upload.top_level fn ∨ Str.starts_with "/www/" fn = true ∨
   Str.starts_with "/merges/" fn = true ∨
   Str.starts_with "/plugins/" fn = true).
Proof.
  unfold Upload.fileFilter.
  destruct (0 <=? Str.indexOf fn "/.")%Z eqn:Hidx; [done|].
  apply Z.leb_gt in Hidx. rewrite scope_re_test.
  destruct fn as [|a rest]; [done|].
  intros [Ha Halt]%andb_true_iff. apply bool_decide_eq_true in Ha. subst a.
  split.
  - unfold Upload.has_hidden_segment. cbn [Str.split].
    rewrite bool_decide_eq_true_2 by done. cbn [existsb].
    apply (StrFacts.no_slash_dot_tail (String "/" rest) 0) in Hidx; [|done].
    cbn [Str.split] in Hidx. rewrite bool_decide_eq_true_2 in Hidx by done.
    exact Hidx.
  - cbn [Str.starts_with]. rewrite !bool_decide_eq_true_2 by done.
    cbn [andb].
    apply orb_true_iff in Halt as [Halt|Htop].
    + apply orb_true_iff in Halt as [Halt|Hp]; [|auto].
      apply orb_true_iff in Halt as [Hw|Hm]; auto.
    + left. exists rest. split; [done|]. by apply negb_true_iff.
Qed.

End UploadFacts.

(** C2: a path that [uploadProject] turns into an upload task, after the
    diff, has no hidden segment and is a top-level file or begins with
    [/www/], [/merges/] or [/plugins/]; [/.monaca/secret.json] is never such a
    path, whatever the local and the remote tree are. *)
Theorem upload_scope (localFiles remoteFiles : FileTree.loc)
    (h : FileTree.heap) :
  (∀ p, p ∈ Upload.uploadKeys localFiles remoteFiles h →
     Upload.has_hidden_segment p = false ∧
     (Upload.top_level p ∨ Str.starts_with "/www/" p = true ∨
      Str.starts_with "/merges/" p = true ∨
      Str.starts_with "/plugins/" p = true)) ∧
  "/.monaca/secret.json" ∉ Upload.uploadKeys localFiles remoteFiles h.
Proof.
  split.
  - intros p Hp. unfold Upload.uploadKeys in Hp.
    apply list_elem_of_filter in Hp as [Hf _].
    by apply UploadFacts.fileFilter_true.
  - unfold Upload.uploadKeys. intros Hp.
    apply list_elem_of_filter in Hp as [Hf _]. vm_compute in Hf. done.
Qed.

Example uploadKeys_heap_upload :
  Upload.uploadKeys 0 1 heap_upload = ["/www/index.html"].
Proof. vm_compute. reflexivity. Qed.

Lemma upload_scope_witness :
  "/www/index.html" ∈ Upload.uploadKeys 0 1 heap_upload ∧
  Upload.has_hidden_segment "/www/index.html" = false.
Proof.
  assert (Hin : "/www/index.html" ∈ Upload.uploadKeys 0 1 heap_upload).
  { vm_compute. apply list_elem_of_here. }
  split; [exact Hin|].
  exact (proj1 (proj1 (upload_scope 0 1 heap_upload) _ Hin)).
Defined.

Module BatchFacts.
Import Batch BatchModel.

Lemma first_err_snoc evs ev :
  first_err (evs ++ [ev]) =
  match first_err evs with
  | Some e => Some e
  | None => match ev_outcome ev with Err e => Some e | Ok => None end
  end.
Proof.
  induction evs as [|x evs IH]; cbn [app first_err].
  - by destruct (ev_outcome ev).
  - by destruct (ev_outcome x).
Qed.

Lemma ok_prefix_all evs : first_err evs = None → ok_prefix evs = evs.
Proof.
  induction evs as [|x evs IH]; [done|]. cbn [first_err ok_prefix].
  unfold is_ok. destruct (ev_outcome x); [|done].
  intros H. by rewrite IH.
Qed.

Lemma ok_prefix_snoc evs ev :
  ok_prefix (evs ++ [ev]) =
  match first_err evs with
  | Some _ => ok_prefix evs
  | None => evs ++ (if is_ok ev then [ev] else [])
  end.
Proof.
  induction evs as [|x evs IH]; cbn [app first_err ok_prefix].
  - by destruct (is_ok ev).
  - unfold is_ok in *. destruct (ev_outcome x); [|done].
    rewrite IH. by destruct (first_err evs).
Qed.

Lemma first_err_None evs :
  first_err evs = None ↔ Forall (λ ev, ev_outcome ev = Ok) evs.
Proof.
  induction evs as [|x evs IH]; cbn [first_err].
  - split; [constructor|done].
  - destruct (ev_outcome x) eqn:Hx.
    + rewrite IH. split; [by constructor|]. by inversion 1.
    + split; [done|]. inversion 1; congruence.
Qed.

Section Run.
Context {V : Type}.
Variable report : string → string.
Variable finish : Deferred.state V error → Deferred.state V error.

Lemma run_snoc n evs ev :
  run report finish n (evs ++ [ev]) =
  settle report finish (run report finish n evs) ev.
Proof. unfold run. by rewrite foldl_app. Qed.

Lemma inv_start n : inv report finish n [] (start finish n).
Proof.
  unfold start. destruct n as [|n]; cbn;
    (split; cbn; rewrite ?Nat.sub_0_r; try done; intros; lia).
Qed.

Lemma defers_next n evs (st : state V) :
  inv report finish n evs st → length evs < n →
  defers st !! currentIndex st = Some Deferred.Pending.
Proof.
  intros [] Hlt. rewrite inv_defers0, inv_index0.
  rewrite lookup_app_r by (rewrite length_fmap; lia).
  rewrite length_fmap, Nat.sub_diag. apply lookup_replicate_2. lia.
Qed.

Lemma defers_insert n evs ev (x : Deferred.state unit error) :
  length evs < n → x = to_state ev →
  <[length evs := x]>
    ((to_state <$> evs) ++ replicate (n - length evs) Deferred.Pending) =
  (to_state <$> (evs ++ [ev])) ++
    replicate (n - length (evs ++ [ev])) Deferred.Pending.
Proof.
  intros Hlt ->. rewrite length_app. cbn [length].
  replace (n - length evs) with (S (n - (length evs + 1))) by lia.
  cbn [replicate].
  rewrite insert_app_r_alt by (rewrite length_fmap; lia).
  rewrite length_fmap, Nat.sub_diag. cbn.
  rewrite fmap_app. cbn. by rewrite <- app_assoc.
Qed.

Lemma imap_snoc {A B} (f : nat → A → B) (l : list A) (x : A) :
  imap f (l ++ [x]) = imap f l ++ [f (length l) x].
Proof. rewrite imap_app. cbn. by rewrite Nat.add_0_r. Qed.

Lemma inv_settle n evs ev (st : state V) :
  inv report finish n evs st → length evs < n →
  inv report finish n (evs ++ [ev]) (settle report finish st ev).
Proof.
  intros Hinv Hlt. pose proof (defers_next n evs st Hinv Hlt) as Hnext.
  destruct Hinv as [Ht Hi Hd Hn Hfail Hrun Hdone].
  unfold settle.
  destruct (first_err evs) as [e0|] eqn:Hfe.
  - (* the batch has failed before *)
    destruct (Hfail e0 eq_refl) as [Hall Hdef].
    assert (Hfe' : first_err (evs ++ [ev]) = Some e0)
      by (by rewrite first_err_snoc, Hfe).
    assert (Hok' : ok_prefix (evs ++ [ev]) = ok_prefix evs)
      by (by rewrite ok_prefix_snoc, Hfe).
    destruct (ev_outcome ev) as [|e] eqn:Hev.
    + unfold defer_resolve, notify_progress. cbn. rewrite Hnext. cbn.
      unfold Deferred.notify. rewrite Hdef. cbn.
      assert (Hres : ∀ s : state V, all s = Deferred.Rejected e0 →
                all_resolve finish s = s)
        by (intros s Hs; unfold all_resolve; by rewrite Hs).
      destruct (pendingCount st - 1 =? 0);
        [rewrite Hres by done|]; cbn;
        (split; cbn; rewrite ?Hfe', ?Hok'; try done;
         [by rewrite length_app, Hi, Nat.add_1_r
         |rewrite Hi, Hd; apply defers_insert; [done|];
          unfold to_state; by rewrite Hev
         |intros e' [= <-]; done]).
    + unfold defer_reject. rewrite Hnext. unfold all_reject. cbn.
      rewrite Hall. cbn.
      split; cbn; rewrite ?Hfe', ?Hok'; try done.
      * by rewrite length_app, Hi, Nat.add_1_r.
      * rewrite Hi, Hd. apply defers_insert; [done|].
        unfold to_state. by rewrite Hev.
      * intros e' [= <-]. done.
  - (* every transfer so far has succeeded *)
    destruct (Hrun eq_refl Hlt) as (Hpc & Hall & Hdef).
    destruct (ev_outcome ev) as [|e] eqn:Hev.
    + assert (Hfe' : first_err (evs ++ [ev]) = None)
        by (by rewrite first_err_snoc, Hfe, Hev).
      assert (Hok' : ok_prefix (evs ++ [ev]) = ok_prefix evs ++ [ev]).
      { rewrite ok_prefix_snoc, Hfe. unfold is_ok. rewrite Hev.
        by rewrite ok_prefix_all. }
      assert (Hlen : length (ok_prefix evs) = length evs)
        by (by rewrite ok_prefix_all).
      unfold defer_resolve, notify_progress. cbn. rewrite Hnext. cbn.
      unfold Deferred.notify. rewrite Hdef. cbn.
      destruct (pendingCount st - 1 =? 0) eqn:Hz.
      * apply Nat.eqb_eq in Hz. unfold all_resolve. cbn. rewrite Hall. cbn.
        split; cbn; rewrite ?Hfe', ?Hok'; try done.
        -- by rewrite length_app, Hi, Nat.add_1_r.
        -- rewrite Hi, Hd. apply defers_insert; [done|].
           unfold to_state. by rewrite Hev.
        -- by rewrite imap_snoc, Hn, Hlen, Ht, Hi.
        -- rewrite length_app. cbn. intros _ H. lia.
      * apply Nat.eqb_neq in Hz.
        split; cbn; rewrite ?Hfe', ?Hok'; try done.
        -- by rewrite length_app, Hi, Nat.add_1_r.
        -- rewrite Hi, Hd. apply defers_insert; [done|].
           unfold to_state. by rewrite Hev.
        -- by rewrite imap_snoc, Hn, Hlen, Ht, Hi.
        -- rewrite length_app. cbn. intros _ _. split_and!; [lia|done..].
        -- rewrite length_app. cbn. intros _ H. lia.
    + assert (Hfe' : first_err (evs ++ [ev]) = Some e)
        by (by rewrite first_err_snoc, Hfe, Hev).
      assert (Hok' : ok_prefix (evs ++ [ev]) = ok_prefix evs).
      { rewrite ok_prefix_snoc, Hfe. unfold is_ok. rewrite Hev.
        by rewrite app_nil_r, ok_prefix_all. }
      unfold defer_reject. rewrite Hnext. unfold all_reject. cbn.
      rewrite Hall, Hdef. cbn.
      split; cbn; rewrite ?Hfe', ?Hok'; try done.
      * by rewrite length_app, Hi, Nat.add_1_r.
      * rewrite Hi, Hd. apply defers_insert; [done|].
        unfold to_state. by rewrite Hev.
      * intros e' [= <-]. done.
Qed.

(** Every run in which no more transfers complete than were started
    satisfies the invariant. *)
Lemma inv_run n evs :
  length evs ≤ n → inv report finish n evs (run report finish n evs).
Proof.
  induction evs as [|ev evs IH] using rev_ind; intros Hlen.
  - apply inv_start.
  - rewrite length_app in Hlen. cbn in Hlen.
    rewrite run_snoc. apply inv_settle; [apply IH|]; lia.
Qed.

End Run.
End BatchFacts.

Module BatchOutcome.
Import Batch BatchModel.

Section Outcome.
Context {V : Type}.
Variable report : string → string.
Variable finish : Deferred.state V error → Deferred.state V error.

(** The promise returned by a batch, as a function of the completions. *)
Lemma deferred_run n evs :
  length evs ≤ n →
  deferred (run report finish n evs) =
  match first_err evs with
  | Some e => Deferred.Rejected e
  | None => if decide (length evs = n) then finish Deferred.Pending
            else Deferred.Pending
  end.
Proof.
  intros Hlen. destruct (BatchFacts.inv_run report finish n evs Hlen)
    as [_ _ _ _ Hfail Hrun Hdone].
  destruct (first_err evs) as [e|].
  - by destruct (Hfail e eq_refl).
  - case_decide as Hn.
    + by destruct (Hdone eq_refl Hn).
    + assert (length evs < n) as Hlt by lia. by destruct (Hrun eq_refl Hlt) as (_ & _ & ?).
Qed.

(** The progress stream after one more completion. *)
Lemma notified_snoc n evs ev :
  length evs < n →
  notified (run report finish n (evs ++ [ev])) =
  if is_ok ev && Deferred.is_pending (deferred (run report finish n evs))
  then notified (run report finish n evs) ++
         [Progress (report (ev_key ev)) n (length evs)]
  else notified (run report finish n evs).
Proof.
  intros Hlt.
  assert (Hlen' : length (evs ++ [ev]) ≤ n)
    by (rewrite length_app; cbn; lia).
  rewrite (BatchModel.inv_notified _ _ _ _ _
             (BatchFacts.inv_run report finish n _ Hlen')).
  rewrite (BatchModel.inv_notified _ _ _ _ _
             (BatchFacts.inv_run report finish n evs ltac:(lia))).
  rewrite deferred_run by lia. rewrite BatchFacts.ok_prefix_snoc.
  destruct (first_err evs) as [e|] eqn:Hfe.
  - cbn. by rewrite andb_false_r.
  - rewrite decide_False by lia. cbn. rewrite andb_true_r.
    rewrite (BatchFacts.ok_prefix_all evs Hfe).
    destruct (is_ok ev).
    + by rewrite BatchFacts.imap_snoc.
    + by rewrite app_nil_r.
Qed.

End Outcome.
End BatchOutcome.

(** C5: the promise of an upload or download batch is fulfilled exactly when
    every transfer of the batch has completed successfully; as soon as a
    transfer has failed, the promise is rejected with the error of the first
    transfer that failed, and a rejected batch carries no other error. *)
Theorem batch_first_failure_wins (join : string → string → string)
    (projectDir projectId : string) (localFiles remoteFiles : FileTree.loc)
    (h : FileTree.heap) (evs : list Batch.event) :
  (let n := length (Upload.uploadKeys localFiles remoteFiles h) in
   length evs ≤ n →
   let st := Transfer.uploadProject projectId localFiles remoteFiles h evs in
   (Batch.deferred st = Deferred.Fulfilled projectId ↔
      length evs = n ∧ Forall (λ ev, Batch.ev_outcome ev = Batch.Ok) evs) ∧
   (∀ e, Batch.deferred st = Deferred.Rejected e ↔
      Batch.first_err evs = Some e)) ∧
  (let n := length (FileTree.keys
               ((FileTree.filterFiles remoteFiles localFiles h).2 remoteFiles)) in
   length evs ≤ n →
   let st := Transfer.downloadProject join projectDir projectId
               localFiles remoteFiles h evs in
   (Batch.deferred st = Deferred.Fulfilled projectId ↔
      length evs = n ∧ Forall (λ ev, Batch.ev_outcome ev = Batch.Ok) evs) ∧
   (∀ e, Batch.deferred st = Deferred.Rejected e ↔
      Batch.first_err evs = Some e)).
Proof.
  assert (Hgen : ∀ report n,
    length evs ≤ n →
    (Batch.deferred (Batch.run report (Deferred.resolve projectId) n evs) =
       Deferred.Fulfilled projectId ↔
     length evs = n ∧ Forall (λ ev, Batch.ev_outcome ev = Batch.Ok) evs) ∧
    (∀ e,
       Batch.deferred (Batch.run report (Deferred.resolve projectId) n evs) =
       Deferred.Rejected e ↔ Batch.first_err evs = Some e)).
  { intros report n Hn.
    rewrite BatchOutcome.deferred_run by lia.
    rewrite <- BatchFacts.first_err_None.
    destruct (Batch.first_err evs) as [e|].
    - split; [split; [done|intros [_ ?]; done]|].
      intros e'. split; intros [= <-]; done.
    - case_decide as Hlen; cbn.
      + split; [split; done|]. intros e'. split; done.
      + split; [split; [done|intros [? _]; done]|]. intros e'. split; done. }
  split; cbn zeta; intros Hlen.
  - unfold Transfer.uploadProject. by apply Hgen.
  - unfold Transfer.downloadProject. by apply Hgen.
Qed.

Lemma batch_first_failure_wins_witness :
  Batch.deferred
    (Transfer.uploadProject "p1" 0 1 heap_upload
       [Batch.Settle "/www/index.html" (Batch.Err "ECONNRESET")]) =
  Deferred.Rejected "ECONNRESET".
Proof.
  assert (Hlen : length [Batch.Settle "/www/index.html" (Batch.Err "ECONNRESET")] ≤
                 length (Upload.uploadKeys 0 1 heap_upload))
    by (vm_compute; lia).
  exact (proj2 (proj2 (proj1 (batch_first_failure_wins (λ a b, a +:+ b) ""
                                "p1" 0 1 heap_upload _) Hlen) _) eq_refl).
Defined.

(** C8 as worded fails: a transfer that fails emits no progress event. *)
Lemma progress_on_failure_missing :
  ¬ ProgressContract.progress_per_completion (λ key, key)
      (Transfer.uploadProject "p1" 0 1 heap_upload) 1
      [] (Batch.Settle "/www/index.html" (Batch.Err "ECONNRESET")).
Proof.
  unfold ProgressContract.progress_per_completion. vm_compute. discriminate.
Qed.

(** C8, amended: in an upload or download batch, a transfer that completes
    successfully while the promise of the batch is pending emits exactly one
    progress event, with the path its transfer reported, the number of tasks
    as total and, as index, the number of transfers completed before it; a
    transfer that fails, or that completes after the batch was rejected,
    emits none. *)
Theorem progress_on_success (join : string → string → string)
    (projectDir projectId : string) (localFiles remoteFiles : FileTree.loc)
    (h : FileTree.heap) (evs : list Batch.event) (ev : Batch.event) :
  (length evs < length (Upload.uploadKeys localFiles remoteFiles h) →
   let run := Transfer.uploadProject projectId localFiles remoteFiles h in
   Batch.notified (run (evs ++ [ev])) =
   if Batch.is_ok ev && Deferred.is_pending (Batch.deferred (run evs))
   then Batch.notified (run evs) ++
          [Batch.Progress (Batch.ev_key ev)
             (length (Upload.uploadKeys localFiles remoteFiles h))
             (length evs)]
   else Batch.notified (run evs)) ∧
  (let keys := FileTree.keys
       ((FileTree.filterFiles remoteFiles localFiles h).2 remoteFiles) in
   length evs < length keys →
   let run := Transfer.downloadProject join projectDir projectId
                localFiles remoteFiles h in
   Batch.notified (run (evs ++ [ev])) =
   if Batch.is_ok ev && Deferred.is_pending (Batch.deferred (run evs))
   then Batch.notified (run evs) ++
          [Batch.Progress
             (join projectDir (Transfer.substr1 (Batch.ev_key ev)))
             (length keys) (length evs)]
   else Batch.notified (run evs)).
Proof.
  split; cbn zeta; intros Hlt.
  - unfold Transfer.uploadProject. by apply BatchOutcome.notified_snoc.
  - unfold Transfer.downloadProject.
    by rewrite BatchOutcome.notified_snoc.
Qed.

Lemma progress_on_success_witness :
  Batch.notified
    (Transfer.uploadProject "p1" 0 1 heap_upload
       ([] ++ [Batch.Settle "/www/index.html" Batch.Ok])) =
  [Batch.Progress "/www/index.html" 1 0].
Proof.
  assert (Hlt : length (@nil Batch.event) <
                length (Upload.uploadKeys 0 1 heap_upload))
    by (vm_compute; lia).
  exact (proj1 (progress_on_success (λ a b, a +:+ b) "" "p1" 0 1 heap_upload
                  [] (Batch.Settle "/www/index.html" Batch.Ok)) Hlt).
Defined.

Module BuildFacts.
Import Build BuildRuns.

Lemma run_app st evs1 evs2 :
  run st (evs1 ++ evs2) =
  match run st evs1 with
  | Some st' => run st' evs2
  | None => None
  end.
Proof.
  revert st. induction evs1 as [|ev evs1 IH]; intros st; cbn; [done|].
  destruct (step st ev); [apply IH|done].
Qed.

(** One round in which the job is reported unfinished. *)
Lemma run_round q r c n pr br b nt tr :
  finished r = false → c < 80 →
  run (State (Some q) c true false n pr br Deferred.Pending b nt tr)
      [Tick; StatusOk r] =
  Some (State (Some q) (S c) true false n pr br Deferred.Pending b
          (if Deferred.is_pending b then nt ++ [description r] else nt)
          ((tr ++ [Post (Status q)]) ++ [PollNotify (description r)])).
Proof.
  intros Hr Hc.
  assert (Hc80 : (c =? 80) = false) by (apply Nat.eqb_neq; lia).
  destruct r as [f s d]. cbn in Hr. subst f.
  cbn [run step interval]. unfold on_tick. cbn [counter]. rewrite Hc80.
  by destruct b.
Qed.

(** Rounds in which the job is reported unfinished only advance the counter,
    send one status request each and pass the description on. *)
Lemma run_rounds q rs : ∀ c n pr br b nt tr,
  Forall (λ r, finished r = false) rs →
  c + length rs ≤ 80 →
  run (State (Some q) c true false n pr br Deferred.Pending b nt tr)
      (rounds rs) =
  Some (State (Some q) (c + length rs) true false n pr br Deferred.Pending b
          (nt ++ if Deferred.is_pending b then description <$> rs else [])
          (tr ++ rounds_trace q rs)).
Proof.
  induction rs as [|r rs IH]; intros c n pr br b nt tr Hrs Hc.
  - cbn. destruct (Deferred.is_pending b); by rewrite Nat.add_0_r, !app_nil_r.
  - apply Forall_cons_1 in Hrs as [Hr Hrs]. cbn [length] in Hc.
    change (rounds (r :: rs)) with ([Tick; StatusOk r] ++ rounds rs).
    rewrite run_app, run_round by (done || lia).
    rewrite IH by (done || lia).
    change (rounds_trace q (r :: rs))
      with ([Post (Status q); PollNotify (description r)] ++ rounds_trace q rs).
    cbn [length]. rewrite Nat.add_succ_r. cbn [Nat.add].
    do 2 f_equal.
    + destruct (Deferred.is_pending b); [|done].
      by rewrite <- app_assoc.
    + by rewrite <- !app_assoc.
Qed.

Lemma status_posts_app t1 t2 :
  status_posts (t1 ++ t2) = status_posts t1 ++ status_posts t2.
Proof. unfold status_posts. apply List.filter_app. Qed.

Lemma status_posts_rounds q rs :
  length (status_posts (rounds_trace q rs)) = length rs.
Proof.
  induction rs as [|r rs IH]; [done|].
  unfold rounds_trace. cbn [flat_map]. fold (rounds_trace q rs).
  rewrite status_posts_app. rewrite length_app, IH. done.
Qed.

Lemma status_posts_snoc t a :
  length (status_posts (t ++ [a])) =
  length (status_posts t) + if is_status_post a then 1 else 0.
Proof.
  rewrite status_posts_app, length_app. f_equal.
  unfold status_posts. cbn. by destruct (is_status_post a).
Qed.

Ltac unfold_build :=
  cbv [polling on_tick on_status on_status_error poll_notify react
       build_reject build_resolve poll_reject poll_resolve clear_interval
       post_status post_poll_result post_build_result set_inflight set_poll
       set_build log the_queue
       queue counter interval submitting polls poll_results build_results
       poll build notified trace finished status description
       Deferred.reject Deferred.resolve Deferred.is_pending andb
       default from_option id is_tick].

(** A quiet event keeps the poller in [polling] and counts the ticks. *)
Lemma quiet_step q b n0 t st ev st' :
  polling q b n0 t st → quiet ev = true → step st ev = Some st' →
  polling q b n0 (t + if is_tick ev then 1 else 0) st'.
Proof.
  intros (Hq & Hc & Hsub & Hposts & Hlow & Hhigh) Hev Hstep.
  destruct st as [qu c iv sb pl pr br po bu nt tr]. cbn in *. subst qu c sb.
  change (List.filter is_status_post tr) with (status_posts tr) in Hposts.
  destruct ev as [| |  |r| | | | |]; try done; cbn in Hstep.
  - (* a tick *)
    destruct iv; [|done]. injection Hstep as <-.
    assert (Ht : t ≤ 80).
    { destruct (decide (t ≤ 80)); [done|].
      destruct Hhigh as (_ & ? & _); [lia|done]. }
    destruct (Hlow Ht) as (_ & -> & ->). unfold on_tick. cbn [counter].
    destruct (t =? 80) eqn:H80.
    + apply Nat.eqb_eq in H80. subst t. unfold_build. cbn [Nat.add].
      split_and!; try done.
      * rewrite !status_posts_snoc. cbn. lia.
      * intros ?. lia.
    + apply Nat.eqb_neq in H80. unfold_build.
      split_and!; try done.
      * lia.
      * rewrite status_posts_snoc. cbn. lia.
      * intros ?. lia.
  - (* a status response that reports the job unfinished *)
    destruct pl as [|n]; [done|]. injection Hstep as <-.
    destruct r as [f s d]. cbn in Hev. apply negb_true_iff in Hev. subst f.
    rewrite Nat.add_0_r.
    assert (Hpo : po = Deferred.Pending ∨
                  po = Deferred.Rejected "Build timed out").
    { destruct (decide (t ≤ 80)) as [Ht|Ht].
      - left. by destruct (Hlow Ht) as (_ & ? & _).
      - right. by destruct Hhigh as (_ & _ & ? & _); [lia|]. }
    destruct Hpo as [-> | ->]; unfold_build; destruct bu; cbn;
      (split_and!; try done; rewrite status_posts_snoc; cbn; lia).
Qed.

(** In every quiet execution the timer fires at most 81 times, one status
    request is sent per tick, and the timeout is declared by the 81st
    tick. *)
Lemma quiet_run q b n0 evs : ∀ t st st',
  polling q b n0 t st → Forall (λ ev, quiet ev = true) evs →
  run st evs = Some st' →
  polling q b n0 (t + ticks evs) st'.
Proof.
  induction evs as [|ev evs IH]; intros t st st' Hst Hevs Hrun.
  - cbn in Hrun. injection Hrun as <-. unfold ticks. cbn.
    by rewrite Nat.add_0_r.
  - apply Forall_cons_1 in Hevs as [Hev Hevs]. cbn [run] in Hrun.
    destruct (step st ev) as [st1|] eqn:Hstep; [|done].
    pose proof (quiet_step _ _ _ _ _ _ _ Hst Hev Hstep) as Hst1.
    pose proof (IH _ _ _ Hst1 Hevs Hrun) as Hfin.
    unfold ticks in *. cbn [List.filter].
    destruct (is_tick ev); cbn [length]; [|by rewrite Nat.add_0_r in Hfin].
    by replace (t + S (length (List.filter is_tick evs)))
      with (t + 1 + length (List.filter is_tick evs)) by lia.
Qed.

(** Every execution of [buildProject] in which the job is never reported
    finished: one status request per tick, at most 81 ticks, the poller
    pending up to the 80th and rejected with the timeout by the 81st. *)
Lemma quiet_execution arg q evs st :
  Forall (λ ev, quiet ev = true) evs →
  run (buildProject arg) (SubmitOk q :: evs) = Some st →
  ticks evs ≤ 81 ∧
  length (status_posts (trace st)) = ticks evs ∧
  (ticks evs ≤ 80 → interval st = true ∧ poll st = Deferred.Pending) ∧
  (ticks evs = 81 →
   interval st = false ∧ poll st = Deferred.Rejected "Build timed out").
Proof.
  intros Hevs Hrun. cbn [run step] in Hrun.
  assert (Hsub : submitting (buildProject arg) = true) by reflexivity.
  rewrite Hsub in Hrun.
  assert (H0 : polling q (build (buildProject arg)) 0 0
                 (pollBuild q (buildProject arg))).
  { unfold buildProject, polling.
    destruct (falsy _); cbn; (split_and!; try done; intros; lia). }
  destruct (quiet_run _ _ _ _ _ _ _ H0 Hevs Hrun)
    as (_ & _ & _ & Hposts & Hlow & Hhigh).
  cbn [Nat.add] in *. split_and!.
  - destruct (decide (ticks evs ≤ 80)) as [?|Hgt]; [lia|].
    destruct Hhigh as [-> _]; lia.
  - exact Hposts.
  - intros Ht. by destruct (Hlow Ht) as (? & ? & _).
  - intros Ht. destruct Hhigh as (_ & ? & ? & _); [lia|done].
Qed.

End BuildFacts.

(** C3: when the status requests of the first 80 ticks all report an
    unfinished job, the tick that finds the counter at 80 clears the timer
    and rejects with the timeout, and then still sends a status request: 81
    status requests are sent, the last one after the timeout. *)
Theorem poll_after_timeout (arg : option Build.params) (q : string)
    (rs : list Build.status_result) :
  length rs = 80 →
  Forall (λ r, Build.finished r = false) rs →
  ∃ st t,
    Build.run (Build.buildProject arg)
      (Build.SubmitOk q :: BuildRuns.rounds rs ++ [Build.Tick]) = Some st ∧
    Build.poll st = Deferred.Rejected "Build timed out" ∧
    Build.build st =
      Deferred.reject "Build timed out" (Build.build (Build.buildProject arg)) ∧
    Build.interval st = false ∧
    Build.trace st =
      t ++ [Build.ClearInterval; Build.PollReject "Build timed out";
            Build.Post (Build.Status q); Build.BuildReject "Build timed out"] ∧
    length (Build.status_posts (Build.trace st)) = 81.
Proof.
  intros Hlen Hrs.
  set (st0 := Build.buildProject arg).
  assert (Hst0 : ∃ b tr,
    st0 = Build.State None 0 false true 0 0 0 Deferred.Pending b [] tr ∧
    Build.status_posts tr = []) .
  { unfold st0, Build.buildProject.
    destruct (Build.falsy _); eexists _, _; split; reflexivity. }
  destruct Hst0 as (b & tr & -> & Htr).
  exists (Build.State (Some q) 81 false false 1 0 0
            (Deferred.Rejected "Build timed out")
            (Deferred.reject "Build timed out" b)
            ([] ++ if Deferred.is_pending b then Build.description <$> rs
                   else [])
            (((((tr ++ BuildRuns.rounds_trace q rs) ++ [Build.ClearInterval])
                 ++ [Build.PollReject "Build timed out"])
                ++ [Build.Post (Build.Status q)])
               ++ [Build.BuildReject "Build timed out"])),
         (tr ++ BuildRuns.rounds_trace q rs).
  split_and!.
  - cbn [Build.run Build.step Build.submitting]. unfold Build.pollBuild.
    cbn [Build.polls Build.poll_results Build.build_results Build.build
         Build.notified Build.trace].
    rewrite BuildFacts.run_app, BuildFacts.run_rounds by (done || lia).
    rewrite Hlen. reflexivity.
  - reflexivity.
  - reflexivity.
  - reflexivity.
  - cbn [Build.trace]. by rewrite <- !app_assoc.
  - cbn [Build.trace]. rewrite !BuildFacts.status_posts_app, !length_app.
    rewrite Htr, BuildFacts.status_posts_rounds, Hlen. reflexivity.
Qed.

Lemma poll_after_timeout_witness :
  ∃ st t,
    Build.run (Build.buildProject (Some BuildRuns.android))
      (Build.SubmitOk "Q1" ::
         BuildRuns.rounds (replicate 80 BuildRuns.building) ++ [Build.Tick]) =
      Some st ∧
    Build.poll st = Deferred.Rejected "Build timed out" ∧
    Build.build st =
      Deferred.reject "Build timed out"
        (Build.build (Build.buildProject (Some BuildRuns.android))) ∧
    Build.interval st = false ∧
    Build.trace st =
      t ++ [Build.ClearInterval; Build.PollReject "Build timed out";
            Build.Post (Build.Status "Q1");
            Build.BuildReject "Build timed out"] ∧
    length (Build.status_posts (Build.trace st)) = 81.
Proof.
  apply (poll_after_timeout (Some BuildRuns.android) "Q1"
           (replicate 80 BuildRuns.building)).
  - reflexivity.
  - apply Forall_replicate. reflexivity.
Defined.

Module BuildDefaults.
Import Build.

Lemma with_defaults_platform p : platform (with_defaults p) = platform p.
Proof.
  unfold with_defaults.
  destruct (falsy (framework_version p)); cbn;
    destruct (falsy (purpose p)); done.
Qed.

Lemma with_defaults_framework_version p :
  framework_version (with_defaults p) =
  if falsy (framework_version p) then Some "3.5" else framework_version p.
Proof.
  unfold with_defaults.
  destruct (falsy (framework_version p)); cbn;
    destruct (falsy (purpose p)); done.
Qed.

Lemma with_defaults_purpose p :
  purpose (with_defaults p) =
  if falsy (purpose p) then Some "debug" else purpose p.
Proof.
  unfold with_defaults.
  destruct (falsy (framework_version p)); cbn;
    destruct (falsy (purpose p)) eqn:Hp; cbn; by rewrite ?Hp.
Qed.

End BuildDefaults.

(** C4: with the platform absent, [buildProject] rejects with the validation
    message and nevertheless sends the submit request, which is then in
    flight.  For all parameters, the request that is sent carries the
    defaults ["3.5"] and ["debug"] where the framework version and the
    purpose were unset. *)
Theorem submit_despite_missing_platform (p : Build.params) :
  (Build.falsy (Build.platform p) = true →
   Build.build (Build.buildProject (Some p)) =
     Deferred.Rejected "Must specify build platform." ∧
   Build.trace (Build.buildProject (Some p)) =
     [Build.BuildReject "Must specify build platform.";
      Build.Post (Build.Submit (Build.with_defaults p))] ∧
   Build.submitting (Build.buildProject (Some p)) = true) ∧
  list.last (Build.trace (Build.buildProject (Some p))) =
    Some (Build.Post (Build.Submit (Build.with_defaults p))) ∧
  Build.framework_version (Build.with_defaults p) =
    (if Build.falsy (Build.framework_version p) then Some "3.5"
     else Build.framework_version p) ∧
  Build.purpose (Build.with_defaults p) =
    (if Build.falsy (Build.purpose p) then Some "debug"
     else Build.purpose p).
Proof.
  split_and!.
  - intros Hp. unfold Build.buildProject. cbn [default from_option id].
    rewrite BuildDefaults.with_defaults_platform, Hp.
    split_and!; reflexivity.
  - unfold Build.buildProject. cbn [default from_option id].
    by destruct (Build.falsy _).
  - apply BuildDefaults.with_defaults_framework_version.
  - apply BuildDefaults.with_defaults_purpose.
Qed.

Lemma submit_despite_missing_platform_witness :
  Build.trace (Build.buildProject (Some (Build.Params None None None None None))) =
  [Build.BuildReject "Must specify build platform.";
   Build.Post (Build.Submit
                 (Build.Params None None None (Some "3.5") (Some "debug")))].
Proof.
  exact (proj1 (proj2 (proj1 (submit_despite_missing_platform
                                (Build.Params None None None None None))
                         eq_refl))).
Defined.


Example polling_Q1_reached :
  Build.run (Build.buildProject (Some BuildRuns.android))
    [Build.SubmitOk "Q1"; Build.Tick] = Some polling_Q1.
Proof. reflexivity. Qed.


(** The success path of the specification: the third status response reports
    the job finished with status ["finish"], and the build resolves with the
    result after exactly three status requests. *)
Example build_success_path :
  (λ st, (Build.build st, length (Build.status_posts (Build.trace st)),
          Build.interval st)) <$>
  Build.run (Build.buildProject (Some BuildRuns.android))
    [Build.SubmitOk "Q1";
     Build.Tick; Build.StatusOk BuildRuns.building;
     Build.Tick; Build.StatusOk BuildRuns.building;
     Build.Tick; Build.StatusOk (Build.StatusResult true "finish" "Done");
     Build.BuildResultOk "app.apk"] =
  Some (Deferred.Fulfilled "app.apk", 3, false).
Proof. vm_compute. reflexivity. Qed.

Module TransferFacts.
Import FileTree Transfer.

Lemma foldl_add_flags (files : gmap string entry) (l : list string) : ∀ a,
  foldl Nat.add a
    ((λ key, match files !! key with
             | Some (Entry File _) => 1
             | _ => 0
             end) <$> l) =
  a + length (filter (λ key, type <$> files !! key = Some File) l).
Proof.
  induction l as [|k l IH]; intros a; cbn [fmap list_fmap foldl].
  - cbn. lia.
  - rewrite IH. rewrite filter_cons.
    destruct (files !! k) as [[[] hsh]|] eqn:Hk; cbn;
      (case_decide as Hd; [|try done]; cbn; try lia; try done).
Qed.

(** On a tree with at least one entry, [totalLength] of [cloneProject] is
    the number of downloads it starts. *)
Lemma clone_totalLength_files (files : gmap string entry) :
  keys files ≠ [] →
  clone_totalLength files = Some (length (clone_keys files)).
Proof.
  unfold clone_totalLength, clone_keys, reduce.
  destruct (keys files) as [|k l] eqn:Hk; [done|]. intros _.
  cbn [fmap list_fmap]. rewrite foldl_add_flags. f_equal.
  rewrite filter_cons.
  destruct (files !! k) as [[[] hsh]|] eqn:Hkk; cbn;
    (case_decide as Hd; [|try done]; cbn; try lia; try done).
Qed.

(** An upload or download batch without tasks is fulfilled at once, without
    progress. *)
Lemma upload_empty_batch projectId localFiles remoteFiles h :
  Upload.uploadKeys localFiles remoteFiles h = [] →
  Batch.deferred (uploadProject projectId localFiles remoteFiles h []) =
    Deferred.Fulfilled projectId ∧
  Batch.notified (uploadProject projectId localFiles remoteFiles h []) = [].
Proof. unfold uploadProject. intros ->. split; reflexivity. Qed.

Lemma download_empty_batch join projectDir projectId localFiles remoteFiles h :
  keys ((filterFiles remoteFiles localFiles h).2 remoteFiles) = [] →
  Batch.deferred
    (downloadProject join projectDir projectId localFiles remoteFiles h []) =
    Deferred.Fulfilled projectId ∧
  Batch.notified
    (downloadProject join projectDir projectId localFiles remoteFiles h []) = [].
Proof. unfold downloadProject. intros ->. split; reflexivity. Qed.

(** A clone of a tree that has entries but no file is fulfilled once the
    project id is saved. *)
Lemma clone_directories_only join destDir (files : gmap string entry) :
  keys files ≠ [] → clone_keys files = [] →
  Batch.deferred (cloneProject join destDir true files []) =
    Deferred.Fulfilled destDir ∧
  Batch.notified (cloneProject join destDir true files []) = [].
Proof.
  intros Hne Hnone. unfold cloneProject.
  rewrite clone_totalLength_files, Hnone by done. split; reflexivity.
Qed.

End TransferFacts.

(** C9: for the empty remote tree, which has no file to transfer,
    [cloneProject] throws while it computes [totalLength]: no download is
    started, no progress is emitted, and its promise stays pending whatever
    happens afterwards. *)
Theorem clone_empty_tree_never_settles (join : string → string → string)
    (destDir : string) (saved : bool) (evs : list Batch.event) :
  Transfer.clone_keys ∅ = [] ∧
  Transfer.clone_totalLength ∅ = None ∧
  Batch.deferred (Transfer.cloneProject join destDir saved ∅ evs) =
    Deferred.Pending ∧
  Batch.notified (Transfer.cloneProject join destDir saved ∅ evs) = [].
Proof. split_and!; reflexivity. Qed.

Module ScanFacts.
Import FileTree Scan.

Lemma indexOf_from_range needle hay : ∀ i,
  Str.indexOf_from needle hay i = (-1)%Z ∨
  (i ≤ Str.indexOf_from needle hay i)%Z.
Proof.
  induction hay as [|a hay IH]; intros i; cbn [Str.indexOf_from].
  - destruct (Str.starts_with needle ""); [right; lia|by left].
  - destruct (Str.starts_with needle (String a hay)); [right; lia|].
    destruct (IH (i + 1)%Z) as [->|Hle]; [by left|right; lia].
Qed.

(** The test on the name is a test of its beginning. *)
Lemma listed_starts_with name :
  listed name = negb (Str.starts_with "node_modules" name).
Proof.
  unfold listed, Str.indexOf. f_equal.
  destruct name as [|a name]; cbn [Str.indexOf_from].
  - reflexivity.
  - destruct (Str.starts_with "node_modules" (String a name)); [done|].
    destruct (indexOf_from_range "node_modules" name (0 + 1)) as [->|Hle];
      [done|]. apply Z.eqb_neq. lia.
Qed.

Lemma NoDup_fst_filter {A B} (P : A * B → Prop) `{∀ x, Decision (P x)}
    (l : list (A * B)) :
  NoDup l.*1 → NoDup (filter P l).*1.
Proof.
  induction l as [|x l IH]; [done|]. cbn [fmap list_fmap].
  intros [Hx Hl]%list.NoDup_cons. rewrite filter_cons.
  case_decide; [|by apply IH]. cbn [fmap list_fmap]. apply list.NoDup_cons.
  split; [|by apply IH]. intros Hin. apply Hx.
  apply list_elem_of_fmap in Hin as (y & Hy & Hin).
  apply list_elem_of_filter in Hin as [_ Hin].
  apply list_elem_of_fmap. by exists y.
Qed.

Lemma NoDup_fst_unique {B} (l : list (string * B)) x y1 y2 :
  NoDup l.*1 → (x, y1) ∈ l → (x, y2) ∈ l → y1 = y2.
Proof.
  intros Hnd H1 H2.
  pose proof (elem_of_list_to_map_1 (M := gmap string) l x y1 Hnd H1) as E1.
  pose proof (elem_of_list_to_map_1 (M := gmap string) l x y2 Hnd H2) as E2.
  congruence.
Qed.

Section Scanner.
Variable crc32hex : string → string.

Lemma foldl_visit l : ∀ m ps,
  foldl (visit crc32hex) (m, ps) l =
  (foldl stored m l, ps ++ flat_map (promised crc32hex) l).
Proof.
  induction l as [|[name n] l IH]; intros m ps; cbn [foldl flat_map].
  - by rewrite app_nil_r.
  - unfold visit at 2. unfold stored at 2, promised at 1. cbn [fst snd].
    destruct n; cbn [kind_of]; rewrite IH; by rewrite <- ?app_assoc.
Qed.

Lemma stored_lookup l : ∀ key e,
  NoDup l.*1 →
  foldl stored ∅ l !! key = Some e ↔
  ∃ name n, (name, n) ∈ l ∧ key = key_of name ∧ e = Entry (kind_of n) None.
Proof.
  induction l as [|[name n] l IH] using rev_ind; intros key e Hnd.
  - cbn. rewrite lookup_empty. split; [done|].
    intros (? & ? & Hin & _). by apply elem_of_nil in Hin.
  - rewrite fmap_app in Hnd. apply list.NoDup_app in Hnd as (Hl & Hfresh & _).
    rewrite foldl_snoc. unfold stored at 1. cbn [fst snd].
    destruct (decide (key = key_of name)) as [->|Hne].
    + rewrite lookup_insert_eq. split.
      * intros [= <-]. exists name, n. split; [|done].
        apply elem_of_app. right. apply list_elem_of_here.
      * intros (name' & n' & Hin & Hk & ->). injection Hk as <-.
        apply elem_of_app in Hin as [Hin|Hin].
        -- exfalso. apply (Hfresh name); [|apply list_elem_of_here].
           apply list_elem_of_fmap. by exists (name, n').
        -- apply list_elem_of_singleton in Hin. by injection Hin as <-.
    + rewrite lookup_insert_ne by done. rewrite IH by done. split.
      * intros (name' & n' & Hin & Hk & He). exists name', n'.
        split; [|done]. apply elem_of_app. by left.
      * intros (name' & n' & Hin & Hk & He). exists name', n'.
        split; [|done]. apply elem_of_app in Hin as [Hin|Hin]; [done|].
        apply list_elem_of_singleton in Hin. injection Hin as -> ->. done.
Qed.

Lemma q_all_readable l :
  Forall (λ f, readable f.2 = true) l →
  q_all (flat_map (promised crc32hex) l) =
  inr (flat_map (checksums crc32hex) l).
Proof.
  induction l as [|[name n] l IH]; [done|].
  intros [Hn Hl]%Forall_cons_1. cbn [flat_map].
  unfold promised at 1, checksums at 1. cbn [fst snd] in *.
  destruct n; cbn [app q_all]; [by apply IH| |done].
  by rewrite IH.
Qed.

Lemma elem_of_checksums l key c :
  (key, c) ∈ flat_map (checksums crc32hex) l ↔
  ∃ name data, (name, NFile data) ∈ l ∧ key = key_of name ∧ c = crc32hex data.
Proof.
  rewrite list_elem_of_In, in_flat_map. split.
  - intros ([name n] & Hin & Hc). apply list_elem_of_In in Hin.
    unfold checksums in Hc. cbn [fst snd] in Hc.
    destruct n as [|data|e]; cbn in Hc; try done.
    destruct Hc as [[= <- <-]|[]]. by exists name, data.
  - intros (name & data & Hin & -> & ->). exists (name, NFile data).
    split; [by apply list_elem_of_In|]. by left.
Qed.

(** Setting the checksums leaves every other key alone. *)
Lemma hashes_other rs : ∀ (m : gmap string entry) key,
  key ∉ rs.*1 →
  foldl (λ fs r, alter (set_hash r.2) r.1 fs) m rs !! key = m !! key.
Proof.
  induction rs as [|[k c] rs IH]; intros m key Hk; [done|].
  cbn [fmap list_fmap foldl] in *. apply not_elem_of_cons in Hk as [Hne Hk].
  rewrite IH by done. cbn [fst snd]. by rewrite lookup_alter_ne.
Qed.

Lemma hashes_set rs : ∀ (m : gmap string entry) key c,
  NoDup rs.*1 → (key, c) ∈ rs →
  foldl (λ fs r, alter (set_hash r.2) r.1 fs) m rs !! key =
  set_hash c <$> m !! key.
Proof.
  induction rs as [|[k c'] rs IH]; intros m key c Hnd Hin.
  - by apply elem_of_nil in Hin.
  - cbn [fmap list_fmap foldl fst snd] in *.
    apply list.NoDup_cons in Hnd as [Hk Hnd].
    apply elem_of_cons in Hin as [[= -> ->]|Hin].
    + rewrite hashes_other by done. by rewrite lookup_alter_eq.
    + rewrite (IH _ _ c) by done. rewrite lookup_alter_ne; [done|].
      intros ->. apply Hk. apply list_elem_of_fmap. by exists (key, c).
Qed.

End Scanner.
End ScanFacts.

(** C7 as worded fails: a top-level file whose name begins with
    [node_modules] is neither under that directory nor the metadata file,
    and the scan leaves it out. *)
Lemma scan_drops_name_prefix :
  ¬ ∃ files,
      Scan.getLocalProjectFiles sample_crc "/project" (Some listing_backup) =
        Deferred.Fulfilled files ∧
      ScanContract.covers_all_but_reserved sample_crc listing_backup files.
Proof.
  intros (files & Hscan & Hcov).
  assert (Hin : ("node_modules.bak", Scan.NFile "old") ∈ listing_backup).
  { unfold listing_backup. do 2 apply list_elem_of_further.
    apply list_elem_of_here. }
  specialize (Hcov _ _ Hin eq_refl ltac:(discriminate)).
  assert (Hfiles : Deferred.Fulfilled files =
                   Deferred.Fulfilled (E:=Scan.error) tree_backup)
    by (rewrite <- Hscan; vm_compute; reflexivity).
  injection Hfiles as ->.
  vm_compute in Hcov. discriminate.
Qed.

(** C7, amended: for a root that exists and whose files can all be read,
    the scan yields a tree that holds exactly one entry for every listed
    name that does not begin with [node_modules], the metadata file
    [/.monaca/local_properties.json] excepted: a directory entry for a
    directory, a file entry with the checksum of its contents for a file.
    For a root that does not exist the scan is rejected with the
    [does not exist] message. *)
Theorem scan_covers_listed (crc32hex : string → string) (projectDir : string)
    (ls : list (string * Scan.node)) :
  (NoDup ls.*1 →
   Forall (λ f, Scan.readable f.2 = true) ls →
   ∃ files,
     Scan.getLocalProjectFiles crc32hex projectDir (Some ls) =
       Deferred.Fulfilled files ∧
     ∀ key e,
       files !! key = Some e ↔
       ∃ name n, (name, n) ∈ ls ∧ key = Scan.key_of name ∧
         Str.starts_with "node_modules" name = false ∧
         key ≠ "/.monaca/local_properties.json" ∧
         e = Scan.entry_of crc32hex n) ∧
  Scan.getLocalProjectFiles crc32hex projectDir None =
    Deferred.Rejected (projectDir +:+ " does not exist").
Proof.
  split; [|reflexivity]. intros Hnd Hread.
  set (l := filter (λ f, Scan.listed f.1 = true) ls).
  assert (Hndl : NoDup l.*1) by (by apply ScanFacts.NoDup_fst_filter).
  assert (Hreadl : Forall (λ f, Scan.readable f.2 = true) l).
  { apply list.Forall_forall. intros f [_ Hf]%list_elem_of_filter.
    by apply (proj1 (list.Forall_forall _ _) Hread). }
  assert (Hl : ∀ name n, (name, n) ∈ l ↔
            (name, n) ∈ ls ∧ Str.starts_with "node_modules" name = false).
  { intros name n. unfold l. rewrite list_elem_of_filter. cbn [fst].
    rewrite ScanFacts.listed_starts_with, negb_true_iff. tauto. }
  assert (Hcs : NoDup (flat_map (Scan.checksums crc32hex) l).*1).
  { clear Hreadl Hl. induction l as [|[name n] l' IH]; [constructor|].
    cbn [fmap list_fmap] in Hndl.
    apply list.NoDup_cons in Hndl as [Hfresh Hndl'].
    cbn [flat_map]. unfold Scan.checksums at 1. cbn [fst snd].
    destruct n; cbn [app fmap list_fmap]; try by apply IH.
    apply list.NoDup_cons. split; [|by apply IH].
    intros Hin. apply list_elem_of_fmap in Hin as ([k c] & Hk & Hin).
    cbn in Hk. subst k.
    apply ScanFacts.elem_of_checksums in Hin as (name' & d' & Hin & Hk & _).
    injection Hk as <-. apply Hfresh. apply list_elem_of_fmap.
    by exists (name, Scan.NFile d'). }
  unfold Scan.getLocalProjectFiles. fold l.
  rewrite ScanFacts.foldl_visit. cbn [fst snd app].
  rewrite ScanFacts.q_all_readable by done.
  eexists. split; [reflexivity|]. intros key e.
  rewrite lookup_delete_Some.
  set (m := foldl Scan.stored ∅ l).
  set (rs := flat_map (Scan.checksums crc32hex) l).
  split.
  - intros [Hmeta Hlook].
    destruct (m !! key) as [e0|] eqn:Hm.
    + apply ScanFacts.stored_lookup in Hm as (name & n & Hin & -> & ->);
        [|done].
      exists name, n. apply Hl in Hin as Hin'. destruct Hin' as [Hin' Hsw].
      split_and!; [done..|].
      destruct n as [|data|err].
      * rewrite ScanFacts.hashes_other in Hlook.
        -- fold m in Hlook.
           assert (Hm' : m !! Scan.key_of name = Some (FileTree.Entry FileTree.Dir None)).
           { apply ScanFacts.stored_lookup; [done|]. by exists name, Scan.NDir. }
           rewrite Hm' in Hlook. by injection Hlook as <-.
        -- intros Hk. apply list_elem_of_fmap in Hk as ([k c] & Hk & Hc).
           cbn in Hk. subst k.
           apply ScanFacts.elem_of_checksums in Hc
             as (name' & d' & Hin2 & Hk & _).
           injection Hk as <-.
           assert (Heq : Scan.NDir = Scan.NFile d'); [|done].
           by apply (ScanFacts.NoDup_fst_unique l name).
      * rewrite (ScanFacts.hashes_set _ _ _ (crc32hex data)) in Hlook;
          [|done|apply ScanFacts.elem_of_checksums; by exists name, data].
        assert (Hm' : m !! Scan.key_of name =
                      Some (FileTree.Entry FileTree.File None)).
        { apply ScanFacts.stored_lookup; [done|].
          by exists name, (Scan.NFile data). }
        rewrite Hm' in Hlook. cbn in Hlook. by injection Hlook as <-.
      * exfalso. apply (proj1 (list.Forall_forall _ _) Hreadl) in Hin. done.
    + exfalso.
      destruct (decide (key ∈ rs.*1)) as [Hk|Hk].
      * apply list_elem_of_fmap in Hk as ([k c] & Hk & Hc). cbn in Hk. subst k.
        rewrite (ScanFacts.hashes_set _ _ _ c) in Hlook by done.
        fold m in Hlook. rewrite Hm in Hlook. done.
      * rewrite ScanFacts.hashes_other in Hlook by done.
        fold m in Hlook. congruence.
  - intros (name & n & Hin & -> & Hsw & Hmeta & ->). split; [done|].
    assert (Hinl : (name, n) ∈ l) by (by apply Hl).
    assert (Hm : m !! Scan.key_of name =
                 Some (FileTree.Entry (Scan.kind_of n) None)).
    { apply ScanFacts.stored_lookup; [done|]. by exists name, n. }
    destruct n as [|data|err].
    + rewrite ScanFacts.hashes_other; [done|].
      intros Hk. apply list_elem_of_fmap in Hk as ([k c] & Hk & Hc).
      cbn in Hk. subst k.
      apply ScanFacts.elem_of_checksums in Hc as (name' & d' & Hin2 & Hk & _).
      injection Hk as <-.
      assert (Heq : Scan.NDir = Scan.NFile d'); [|done].
      by apply (ScanFacts.NoDup_fst_unique l name).
    + rewrite (ScanFacts.hashes_set _ _ _ (crc32hex data));
        [|done|apply ScanFacts.elem_of_checksums; by exists name, data].
      fold m. by rewrite Hm.
    + exfalso. apply (proj1 (list.Forall_forall _ _) Hreadl) in Hinl. done.
Qed.

Lemma scan_covers_listed_witness :
  NoDup listing_backup.*1 ∧
  Forall (λ f, Scan.readable f.2 = true) listing_backup ∧
  ∃ files,
    Scan.getLocalProjectFiles sample_crc "/project" (Some listing_backup) =
      Deferred.Fulfilled files ∧
    ∀ key e,
      files !! key = Some e ↔
      ∃ name n, (name, n) ∈ listing_backup ∧ key = Scan.key_of name ∧
        Str.starts_with "node_modules" name = false ∧
        key ≠ "/.monaca/local_properties.json" ∧
        e = Scan.entry_of sample_crc n.
Proof.
  assert (Hnd : NoDup listing_backup.*1)
    by (apply (bool_decide_unpack _); vm_compute; exact I).
  assert (Hread : Forall (λ f, Scan.readable f.2 = true) listing_backup)
    by (repeat constructor).
  split; [exact Hnd|]. split; [exact Hread|].
  exact (proj1 (scan_covers_listed sample_crc "/project" listing_backup)
           Hnd Hread).
Defined.

Example scan_listing_backup :
  Scan.getLocalProjectFiles sample_crc "/project" (Some listing_backup) =
  Deferred.Fulfilled tree_backup.
Proof. vm_compute. reflexivity. Qed.

(** * Properties of the stores, the session and the remaining operations *)

Module FsFacts.
Import Fs FsModel.

Lemma append_eq_self (a b : string) : a +:+ b = a → b = "".
Proof.
  induction a as [|c a IH]; cbn; [done|]. intros [= H]. by apply IH.
Qed.

Lemma add_ext_ne p ext : ext ≠ "" → add_ext p ext ≠ p.
Proof.
  intros Hext. unfold add_ext.
  destruct (reverse p) as [|name rest] eqn:Hrev.
  - apply (f_equal reverse) in Hrev. rewrite reverse_involutive in Hrev.
    by subst p.
  - apply (f_equal reverse) in Hrev. rewrite reverse_involutive in Hrev.
    rewrite reverse_cons in Hrev. subst p.
    intros Heq. apply app_inv_head in Heq. injection Heq as Heq.
    by apply append_eq_self in Heq.
Qed.

Lemma dirname_add_ext p ext : p ≠ [] → dirname (add_ext p ext) = dirname p.
Proof.
  intros Hp. unfold add_ext, dirname.
  destruct (reverse p) as [|name rest] eqn:Hrev.
  - apply (f_equal reverse) in Hrev. rewrite reverse_involutive in Hrev.
    by subst p.
  - apply (f_equal reverse) in Hrev. rewrite reverse_involutive in Hrev.
    rewrite reverse_cons in Hrev. subst p.
    rewrite !length_app. cbn [length].
    rewrite !Nat.add_sub.
    rewrite !take_app_length'; [done|..]; done.
Qed.

Lemma length_dirname p : p ≠ [] → length (dirname p) < length p.
Proof.
  intros Hp. unfold dirname. rewrite length_take.
  destruct p; [done|]. cbn. lia.
Qed.

Lemma dirname_ne p : p ≠ [] → dirname p ≠ p.
Proof.
  intros Hp Heq. pose proof (length_dirname p Hp) as Hlt.
  rewrite Heq in Hlt. lia.
Qed.

Lemma elem_of_ancestors q p : q ∈ ancestors p → length q ≤ length p ∧ q ≠ [].
Proof.
  unfold ancestors. intros (n & -> & Hn)%list_elem_of_fmap.
  apply elem_of_seq in Hn. rewrite length_take. split; [lia|].
  destruct p; cbn in *; [lia|]. destruct n; [lia|done].
Qed.

End FsFacts.

Module ConfigFacts.
Import Fs FsModel Client Config.

(** A path that is not a directory and has no file does not exist. *)
Lemma exists_false p s :
  exists_ p s = false ↔ is_dir p s = false ∧ files s !! p = None.
Proof.
  unfold exists_, is_file. destruct (is_dir p s); cbn;
    [split; [done|intros [? _]; done]|].
  case_bool_decide as Hf.
  - split; [done|]. intros [_ Hn]. rewrite Hn in Hf. by destruct Hf.
  - split; [|done]. intros _. split; [done|].
    destruct (files s !! p) eqn:E; [|done]. exfalso. apply Hf. by eexists.
Qed.

Lemma is_dir_mkdir_p q p s :
  is_dir q (mkdir_p p s) = is_dir q s || bool_decide (q ∈ ancestors p).
Proof.
  unfold is_dir, mkdir_p. cbn.
  destruct (bool_decide (q = [])) eqn:Hnil; cbn; [done|].
  apply bool_decide_eq_false in Hnil.
  destruct (bool_decide (q ∈ dirs s)) eqn:Hd; cbn.
  - apply bool_decide_eq_true in Hd. apply bool_decide_eq_true.
    apply elem_of_union. by left.
  - apply bool_decide_eq_false in Hd. apply bool_decide_ext.
    rewrite elem_of_union, elem_of_list_to_set.
    split; [intros [?|?]; done|by right].
Qed.

(** A path longer than [p] is not made by [mkdir -p p]. *)
Lemma is_dir_mkdir_p_longer q p s :
  length p < length q → is_dir q (mkdir_p p s) = is_dir q s.
Proof.
  intros Hlen. rewrite is_dir_mkdir_p.
  rewrite (bool_decide_eq_false_2 (q ∈ ancestors p)); [by rewrite orb_false_r|].
  intros [Hle _]%FsFacts.elem_of_ancestors. lia.
Qed.

End ConfigFacts.

(** With its directory in place, a config file that exists is left alone. *)
Lemma ensure_existing (CONFIG_FILE : list string)
    (m : Client.monaca) (s : Fs.fs) :
  Fs.is_dir (Fs.dirname (Config.getConfigFile CONFIG_FILE m)) s = true →
  Fs.exists_ (Config.getConfigFile CONFIG_FILE m) s = true →
  Config._ensureConfigFile CONFIG_FILE m s =
    (Deferred.Fulfilled (Config.getConfigFile CONFIG_FILE m), s).
Proof.
  intros Hparent Hcf. unfold Config._ensureConfigFile.
  assert (Hex : Fs.exists_ (Fs.dirname (Config.getConfigFile CONFIG_FILE m)) s
                = true) by (unfold Fs.exists_; by rewrite Hparent).
  by rewrite Hex, Hcf.
Qed.

(** X1: when the directory of the config file exists, [_ensureConfigFile]
    resolves with the path of the config file; a config file that is there
    is left as it is together with the rest of the tree, and a missing one is
    created holding the empty object, nothing else being changed. *)
Theorem ensureConfigFile_parent_exists (CONFIG_FILE : list string)
    (m : Client.monaca) (s : Fs.fs) :
  Fs.is_dir (Fs.dirname (Config.getConfigFile CONFIG_FILE m)) s = true →
  (Fs.exists_ (Config.getConfigFile CONFIG_FILE m) s = true →
   Config._ensureConfigFile CONFIG_FILE m s =
     (Deferred.Fulfilled (Config.getConfigFile CONFIG_FILE m), s)) ∧
  (Fs.exists_ (Config.getConfigFile CONFIG_FILE m) s = false →
   ∃ s',
     Config._ensureConfigFile CONFIG_FILE m s =
       (Deferred.Fulfilled (Config.getConfigFile CONFIG_FILE m), s') ∧
     Fs.readFile (Config.getConfigFile CONFIG_FILE m) s' =
       inr (Json.Object ∅) ∧
     FsModel.same_but (Config.getConfigFile CONFIG_FILE m) s s').
Proof.
  intros Hparent. unfold Config._ensureConfigFile.
  set (cf := Config.getConfigFile CONFIG_FILE m) in *.
  assert (Hex : Fs.exists_ (Fs.dirname cf) s = true)
    by (unfold Fs.exists_; by rewrite Hparent).
  rewrite Hex. split; intros Hcf; rewrite Hcf; [done|].
  apply ConfigFacts.exists_false in Hcf as [Hnd Hnf].
  unfold Fs.writeFile. rewrite Hnd, Hparent.
  eexists. split; [reflexivity|]. split.
  - unfold Fs.readFile, Fs.is_dir in *. cbn. rewrite Hnd.
    by rewrite lookup_insert_eq.
  - split; [done|]. intros q Hq. cbn. by rewrite lookup_insert_ne.
Qed.

Lemma ensureConfigFile_parent_exists_witness :
  ∃ s',
    Config._ensureConfigFile config_file Client.new cordova_home =
      (Deferred.Fulfilled config_file, s') ∧
    Fs.readFile config_file s' = inr (Json.Object ∅) ∧
    FsModel.same_but config_file cordova_home s'.
Proof.
  assert (Hdir : Fs.is_dir (Fs.dirname (Config.getConfigFile config_file Client.new))
                   cordova_home = true) by (vm_compute; reflexivity).
  assert (Hno : Fs.exists_ (Config.getConfigFile config_file Client.new)
                  cordova_home = false) by (vm_compute; reflexivity).
  exact (proj2 (ensureConfigFile_parent_exists config_file Client.new
                  cordova_home Hdir) Hno).
Defined.



Module StoreFacts.
Import Fs FsModel Client Config.

Lemma length_dirname_le p : length (dirname p) ≤ length p.
Proof. unfold dirname. rewrite length_take. lia. Qed.

Lemma length_add_ext p ext : length p ≤ length (add_ext p ext).
Proof.
  unfold add_ext. destruct (reverse p) as [|name rest] eqn:Hrev.
  - apply (f_equal reverse) in Hrev. rewrite reverse_involutive in Hrev.
    subst p. cbn. lia.
  - apply (f_equal reverse) in Hrev. rewrite reverse_involutive in Hrev.
    rewrite reverse_cons in Hrev. subst p. rewrite !length_app. cbn. lia.
Qed.

Lemma exists_congr q s s' :
  is_dir q s' = is_dir q s → files s' !! q = files s !! q →
  exists_ q s' = exists_ q s.
Proof. intros Hd Hf. unfold exists_, is_file. by rewrite Hd, Hf. Qed.

Section Store.
Variable CONFIG_FILE : list string.

(** [_ensureConfigFile] resolves with the config file, and never stays
    pending. *)
Lemma ensure_result m s :
  (_ensureConfigFile CONFIG_FILE m s).1 = Deferred.Fulfilled (getConfigFile CONFIG_FILE m) ∨
  ∃ err, (_ensureConfigFile CONFIG_FILE m s).1 = Deferred.Rejected err.
Proof.
  unfold _ensureConfigFile.
  destruct (exists_ (getConfigFile CONFIG_FILE m) _); [by left|].
  destruct (writeFile _ _ _); [right; by eexists|by left].
Qed.

(** [_ensureConfigFile] changes nothing at a path that is not shorter than
    the config file and is not the config file. *)
Lemma ensure_other m s q :
  q ≠ getConfigFile CONFIG_FILE m → length (getConfigFile CONFIG_FILE m) ≤ length q →
  is_dir q (_ensureConfigFile CONFIG_FILE m s).2 = is_dir q s ∧
  files (_ensureConfigFile CONFIG_FILE m s).2 !! q = files s !! q.
Proof.
  intros Hq Hlen. unfold _ensureConfigFile.
  set (cf := getConfigFile CONFIG_FILE m) in *.
  set (s1 := if exists_ (dirname cf) s then s
             else mkdir_p (dirname (dirname cf)) s).
  assert (H1 : is_dir q s1 = is_dir q s ∧ files s1 !! q = files s !! q).
  { unfold s1. destruct (exists_ (dirname cf) s); [done|]. split; [|done].
    apply ConfigFacts.is_dir_mkdir_p_longer.
    pose proof (length_dirname_le cf). pose proof (length_dirname_le (dirname cf)).
    destruct (decide (cf = [])) as [Hnil|Hne].
    - rewrite Hnil in *. cbn. destruct q; [done|cbn; lia].
    - pose proof (FsFacts.length_dirname cf Hne). lia. }
  destruct (exists_ cf s1); [done|].
  unfold writeFile. destruct (is_dir cf s1); [done|].
  destruct (is_dir (dirname cf) s1); [|done]. cbn.
  destruct H1 as [Hd Hf]. split.
  - rewrite <- Hd. done.
  - by rewrite lookup_insert_ne.
Qed.

(** When [_ensureConfigFile] resolves, the config file exists afterwards and
    a second call changes nothing. *)
Lemma ensure_fulfilled m s p s1 :
  _ensureConfigFile CONFIG_FILE m s = (Deferred.Fulfilled p, s1) →
  p = getConfigFile CONFIG_FILE m ∧ exists_ (getConfigFile CONFIG_FILE m) s1 = true.
Proof.
  unfold _ensureConfigFile. set (cf := getConfigFile CONFIG_FILE m).
  set (s0 := if exists_ (dirname cf) s then s
             else mkdir_p (dirname (dirname cf)) s).
  destruct (exists_ cf s0) eqn:Hex.
  - intros [= <- <-]. done.
  - unfold writeFile. destruct (is_dir cf s0) eqn:Hcd; [done|].
    destruct (is_dir (dirname cf) s0) eqn:Hpd; [|done].
    intros [= <- <-]. split; [done|].
    unfold exists_, is_file, is_dir in *. cbn. rewrite Hcd. cbn.
    rewrite lookup_insert_eq. apply bool_decide_eq_true_2. by eexists.
Qed.

(** What a resolved [setConfig] or [removeConfig] has done. *)
Lemma locked_update_fulfilled {V} (change : _ → _ * V) m s v s' :
  locked_update CONFIG_FILE change m s = (Deferred.Fulfilled v, s') →
  ∃ s1 ob,
    _ensureConfigFile CONFIG_FILE m s = (Deferred.Fulfilled (getConfigFile CONFIG_FILE m), s1) ∧
    is_dir (getConfigFile CONFIG_FILE m) s1 = false ∧
    is_dir (dirname (getConfigFile CONFIG_FILE m)) s1 = true ∧
    files s1 !! getConfigFile CONFIG_FILE m = Some (Json.Object ob) ∧
    files s1 !! add_ext (getConfigFile CONFIG_FILE m) ".lock" = None ∧
    v = (change ob).2 ∧
    s' = Fs (dirs s1) (<[getConfigFile CONFIG_FILE m := Json.Object (change ob).1]> (files s1)).
Proof.
  unfold locked_update.
  destruct (_ensureConfigFile CONFIG_FILE m s) as [[|p|err] s1] eqn:Hens; [done| |done].
  apply ensure_fulfilled in Hens as Hp. destruct Hp as [-> Hex].
  set (cf := getConfigFile CONFIG_FILE m) in *. set (lk := add_ext cf ".lock").
  assert (Hlk : lk ≠ cf) by (by apply FsFacts.add_ext_ne).
  unfold lock. destruct (exists_ lk s1) eqn:Hexl; [done|].
  apply ConfigFacts.exists_false in Hexl as [Hld Hlf].
  unfold writeFile at 1. rewrite Hld.
  destruct (is_dir (dirname lk) s1) eqn:Hlp; [|done].
  unfold readFile. unfold is_dir at 1. cbn [dirs files].
  fold (is_dir cf s1). destruct (is_dir cf s1) eqn:Hcd; [done|].
  rewrite lookup_insert_ne by done.
  destruct (files s1 !! cf) as [[ob|t]|] eqn:Hcf; [|done|done].
  destruct (change ob) as [ob' v'] eqn:Hch.
  unfold writeFile. unfold is_dir at 1. cbn [dirs files].
  fold (is_dir cf s1). rewrite Hcd.
  unfold is_dir at 1. cbn [dirs files]. fold (is_dir (dirname cf) s1).
  destruct (is_dir (dirname cf) s1) eqn:Hpd; [|done].
  intros [= <- <-]. exists s1, ob. rewrite Hch. cbn [fst snd].
  split_and!; try done.
  unfold unlock. cbn [dirs files]. f_equal.
  rewrite delete_insert_ne by done. rewrite delete_insert_eq.
  by rewrite delete_id.
Qed.

(** On the tree that a resolved update leaves, the config file is read
    without any further change. *)
Lemma getAllConfigs_after m s1 ob :
  is_dir (getConfigFile CONFIG_FILE m) s1 = false →
  is_dir (dirname (getConfigFile CONFIG_FILE m)) s1 = true →
  getAllConfigs CONFIG_FILE m
    (Fs (dirs s1) (<[getConfigFile CONFIG_FILE m := Json.Object ob]> (files s1))) =
  (Deferred.Fulfilled ob,
   Fs (dirs s1) (<[getConfigFile CONFIG_FILE m := Json.Object ob]> (files s1))).
Proof.
  intros Hcd Hpd. unfold getAllConfigs, _ensureConfigFile.
  set (cf := getConfigFile CONFIG_FILE m) in *.
  set (s2 := Fs (dirs s1) (<[cf := Json.Object ob]> (files s1))).
  assert (Hpd2 : is_dir (dirname cf) s2 = true) by done.
  assert (Hcd2 : is_dir cf s2 = false) by done.
  assert (Hexp : exists_ (dirname cf) s2 = true)
    by (unfold exists_; by rewrite Hpd2).
  assert (Hexc : exists_ cf s2 = true).
  { unfold exists_, is_file. rewrite Hcd2. cbn.
    rewrite lookup_insert_eq. apply bool_decide_eq_true_2. by eexists. }
  rewrite Hexp, Hexc. unfold readFile. rewrite Hcd2. cbn.
  by rewrite lookup_insert_eq.
Qed.

(** Reading the config file on the tree that [_ensureConfigFile] left. *)
Lemma getAllConfigs_ensured m s s1 ob :
  _ensureConfigFile CONFIG_FILE m s = (Deferred.Fulfilled (getConfigFile CONFIG_FILE m), s1) →
  is_dir (getConfigFile CONFIG_FILE m) s1 = false →
  files s1 !! getConfigFile CONFIG_FILE m = Some (Json.Object ob) →
  getAllConfigs CONFIG_FILE m s = (Deferred.Fulfilled ob, s1).
Proof.
  intros Hens Hcd Hcf. unfold getAllConfigs. rewrite Hens.
  unfold readFile. by rewrite Hcd, Hcf.
Qed.

End Store.
End StoreFacts.

Module JsonFacts.
Import Json.

Lemma get_put_eq ob k v : k ≠ "__proto__" → get (put ob k v) k = Value v.
Proof.
  intros Hk. unfold get, put.
  rewrite (bool_decide_eq_false_2 (k = "__proto__")) by done. cbn.
  by rewrite lookup_insert_eq.
Qed.

Lemma get_put_ne ob k k' v : k' ≠ k → get (put ob k v) k' = get ob k'.
Proof.
  intros Hk. unfold get, put.
  destruct (_ && _); [done|]. by rewrite lookup_insert_ne.
Qed.

Lemma get_delete_eq ob k : get (delete k ob) k = get ∅ k.
Proof. unfold get. by rewrite lookup_delete_eq, lookup_empty. Qed.

Lemma get_delete_ne ob k k' : k' ≠ k → get (delete k ob) k' = get ob k'.
Proof. intros Hk. unfold get. by rewrite lookup_delete_ne. Qed.

End JsonFacts.







Module LockFacts.
Import Fs FsModel Client Config.

Section Store.
Variable CONFIG_FILE : list string.

Lemma unlock_lock_id lk s d :
  exists_ lk s = false →
  unlock lk (Fs (dirs s) (<[lk := d]> (files s))) = s.
Proof.
  intros [_ Hf]%ConfigFacts.exists_false. unfold unlock. cbn.
  rewrite delete_insert_eq, delete_id by done. by destruct s.
Qed.

(** The lock file is outside of what [_ensureConfigFile] touches. *)
Lemma ensure_lock m s :
  exists_ (add_ext (getConfigFile CONFIG_FILE m) ".lock")
    (_ensureConfigFile CONFIG_FILE m s).2 =
  exists_ (add_ext (getConfigFile CONFIG_FILE m) ".lock") s.
Proof.
  destruct (StoreFacts.ensure_other CONFIG_FILE m s
              (add_ext (getConfigFile CONFIG_FILE m) ".lock")) as [Hd Hf].
  - by apply FsFacts.add_ext_ne.
  - apply StoreFacts.length_add_ext.
  - by apply StoreFacts.exists_congr.
Qed.

(** An update that does not resolve has done nothing after
    [_ensureConfigFile]: no write, and no lock left behind. *)
Lemma locked_update_cases {V} (change : _ → _ * V) m s r s' :
  locked_update CONFIG_FILE change m s = (r, s') →
  (∃ v, r = Deferred.Fulfilled v) ∨
  (s' = (_ensureConfigFile CONFIG_FILE m s).2 ∧
   ∃ err, r = Deferred.Rejected err).
Proof.
  unfold locked_update.
  pose proof (StoreFacts.ensure_result CONFIG_FILE m s) as Hres.
  destruct (_ensureConfigFile CONFIG_FILE m s) as [r1 s1] eqn:Hens.
  cbn [fst snd] in *.
  destruct r1 as [|p|err]; [by destruct Hres as [?|[? ?]]| |].
  2: { intros [= <- <-]. right. eauto. }
  set (lk := add_ext p ".lock").
  unfold lock. destruct (exists_ lk s1) eqn:Hexl.
  { intros [= <- <-]. right. eauto. }
  unfold writeFile at 1.
  destruct (is_dir lk s1). { intros [= <- <-]. right. eauto. }
  destruct (is_dir (dirname lk) s1).
  2: { intros [= <- <-]. right. eauto. }
  set (s2 := Fs (dirs s1) (<[lk := Json.Garbage ""]> (files s1))).
  assert (Hun : unlock lk s2 = s1) by (by apply unlock_lock_id).
  destruct (readFile p s2) as [err|[ob|t]].
  { intros [= <- <-]. right. eauto. }
  2: { intros [= <- <-]. right. eauto. }
  destruct (change ob) as [ob' v].
  destruct (writeFile p (Json.Object ob') s2).
  - intros [= <- <-]. right. eauto.
  - intros [= <- <-]. left. eauto.
Qed.

Lemma locked_update_not_fulfilled {V} (change : _ → _ * V) m s :
  (∃ v, (locked_update CONFIG_FILE change m s).1 = Deferred.Fulfilled v) ∨
  ((locked_update CONFIG_FILE change m s).2 =
     (_ensureConfigFile CONFIG_FILE m s).2 ∧
   ∃ err, (locked_update CONFIG_FILE change m s).1 = Deferred.Rejected err).
Proof.
  destruct (locked_update CONFIG_FILE change m s) as [r s'] eqn:Hupd.
  by apply locked_update_cases in Hupd.
Qed.

(** Whatever the outcome, a lock that was free is free afterwards. *)
Lemma locked_update_releases {V} (change : _ → _ * V) m s :
  exists_ (add_ext (getConfigFile CONFIG_FILE m) ".lock") s = false →
  exists_ (add_ext (getConfigFile CONFIG_FILE m) ".lock")
    (locked_update CONFIG_FILE change m s).2 = false.
Proof.
  intros Hfree.
  destruct (locked_update_not_fulfilled change m s) as [[v Hv]|[Hs _]].
  - destruct (locked_update CONFIG_FILE change m s) as [r s'] eqn:Hupd.
    cbn in Hv. subst r.
    apply StoreFacts.locked_update_fulfilled in Hupd
      as (s1 & ob & Hens & Hcd & Hpd & Hcf & Hlf & _ & ->). cbn [snd].
    assert (Hs1 : exists_ (add_ext (getConfigFile CONFIG_FILE m) ".lock") s1
                  = false).
    { pose proof (ensure_lock m s) as E. rewrite Hens in E. cbn [snd] in E.
      by rewrite E. }
    apply ConfigFacts.exists_false in Hs1 as [Hld _].
    apply ConfigFacts.exists_false. split; [done|]. cbn.
    rewrite lookup_insert_ne; [done|].
    intros Heq. symmetry in Heq. by apply FsFacts.add_ext_ne in Heq.
  - rewrite Hs. by rewrite ensure_lock.
Qed.

(** With the lock taken, the update is refused. *)
Lemma locked_update_refused {V} (change : _ → _ * V) m s :
  exists_ (add_ext (getConfigFile CONFIG_FILE m) ".lock") s = true →
  ∃ err, locked_update CONFIG_FILE change m s =
           (Deferred.Rejected err, (_ensureConfigFile CONFIG_FILE m s).2).
Proof.
  intros Htaken. rewrite <- ensure_lock in Htaken. unfold locked_update.
  pose proof (StoreFacts.ensure_result CONFIG_FILE m s) as Hres.
  destruct (_ensureConfigFile CONFIG_FILE m s) as [r s1] eqn:Hens.
  cbn [fst snd] in *.
  destruct r as [|p|err]; [by destruct Hres as [?|[? ?]]| |eauto].
  apply StoreFacts.ensure_fulfilled in Hens as [-> _].
  unfold lock. rewrite Htaken. eauto.
Qed.

End Store.
End LockFacts.

(** X6: [setConfig] and [removeConfig] keep the lock discipline.  When the
    lock file is there already, the call is rejected and nothing is read or
    written after [_ensureConfigFile]; when it is not, it is not there
    afterwards either, whatever the outcome; and a call that is rejected has
    left the tree as [_ensureConfigFile] made it. *)
Theorem config_lock_discipline (CONFIG_FILE : list string)
    (m : Client.monaca) (s : Fs.fs) (k v : string) :
  let lk := Fs.add_ext (Config.getConfigFile CONFIG_FILE m) ".lock" in
  let ensured := (Config._ensureConfigFile CONFIG_FILE m s).2 in
  (Fs.exists_ lk s = true →
   (∃ err, Config.setConfig CONFIG_FILE (Config.AStr k) (Config.AStr v) m s =
             Config.Returns (Deferred.Rejected err, ensured)) ∧
   (∃ err, Config.removeConfig CONFIG_FILE (Config.AStr k) m s =
             Config.Returns (Deferred.Rejected err, ensured))) ∧
  (Fs.exists_ lk s = false →
   (∀ r s', Config.setConfig CONFIG_FILE (Config.AStr k) (Config.AStr v) m s =
              Config.Returns (r, s') → Fs.exists_ lk s' = false) ∧
   (∀ r s', Config.removeConfig CONFIG_FILE (Config.AStr k) m s =
              Config.Returns (r, s') → Fs.exists_ lk s' = false)) ∧
  (∀ err s', Config.setConfig CONFIG_FILE (Config.AStr k) (Config.AStr v) m s =
               Config.Returns (Deferred.Rejected err, s') → s' = ensured) ∧
  (∀ err s', Config.removeConfig CONFIG_FILE (Config.AStr k) m s =
               Config.Returns (Deferred.Rejected err, s') → s' = ensured).
Proof.
  cbn zeta. split_and!.
  - intros Htaken. cbn. split.
    + destruct (LockFacts.locked_update_refused CONFIG_FILE
                  (λ ob, (Json.put ob k (Json.Str v), v)) m s Htaken)
        as [err ->]. eauto.
    + destruct (LockFacts.locked_update_refused CONFIG_FILE
                  (λ ob, (delete k ob, Json.get ob k)) m s Htaken)
        as [err ->]. eauto.
  - intros Hfree. cbn. split; intros r s' [= Hupd].
    + pose proof (LockFacts.locked_update_releases CONFIG_FILE
                    (λ ob, (Json.put ob k (Json.Str v), v)) m s Hfree) as H.
      by rewrite Hupd in H.
    + pose proof (LockFacts.locked_update_releases CONFIG_FILE
                    (λ ob, (delete k ob, Json.get ob k)) m s Hfree) as H.
      by rewrite Hupd in H.
  - intros err s'. cbn. intros [= Hupd].
    destruct (LockFacts.locked_update_not_fulfilled CONFIG_FILE
                (λ ob, (Json.put ob k (Json.Str v), v)) m s)
      as [[x Hx]|[Hs _]]; rewrite Hupd in *; cbn in *; [done|done].
  - intros err s'. cbn. intros [= Hupd].
    destruct (LockFacts.locked_update_not_fulfilled CONFIG_FILE
                (λ ob, (delete k ob, Json.get ob k)) m s)
      as [[x Hx]|[Hs _]]; rewrite Hupd in *; cbn in *; [done|done].
Qed.

Lemma config_lock_discipline_witness :
  ∃ err,
    Config.setConfig config_file (Config.AStr "http_proxy")
      (Config.AStr "none") Client.new locked_home =
    Config.Returns
      (Deferred.Rejected err,
       (Config._ensureConfigFile config_file Client.new locked_home).2).
Proof.
  assert (Htaken : Fs.exists_
                     (Fs.add_ext (Config.getConfigFile config_file Client.new)
                        ".lock") locked_home = true)
    by (vm_compute; reflexivity).
  exact (proj1 (proj1 (config_lock_discipline config_file Client.new
                         locked_home "http_proxy" "none") Htaken)).
Defined.

(** X7: a config file that does not parse is never overwritten: [getConfig],
    [setConfig] and [removeConfig] are all rejected with the parse error and
    leave the tree exactly as it was, the lock released. *)
Theorem corrupt_config_untouched (CONFIG_FILE : list string)
    (m : Client.monaca) (s : Fs.fs) (k v text : string) :
  let cf := Config.getConfigFile CONFIG_FILE m in
  Fs.is_dir (Fs.dirname cf) s = true →
  Fs.readFile cf s = inr (Json.Garbage text) →
  Fs.exists_ (Fs.add_ext cf ".lock") s = false →
  Config.getConfig CONFIG_FILE (Config.AStr k) m s =
    Config.Returns (Deferred.Rejected "SyntaxError", s) ∧
  Config.setConfig CONFIG_FILE (Config.AStr k) (Config.AStr v) m s =
    Config.Returns (Deferred.Rejected "SyntaxError", s) ∧
  Config.removeConfig CONFIG_FILE (Config.AStr k) m s =
    Config.Returns (Deferred.Rejected "SyntaxError", s).
Proof.
  cbn zeta. set (cf := Config.getConfigFile CONFIG_FILE m).
  intros Hpd Hread Hfree.
  assert (Hcd : Fs.is_dir cf s = false).
  { unfold Fs.readFile in Hread. by destruct (Fs.is_dir cf s). }
  assert (Hcf : Fs.files s !! cf = Some (Json.Garbage text)).
  { unfold Fs.readFile in Hread. rewrite Hcd in Hread.
    destruct (Fs.files s !! cf); congruence. }
  assert (Hex : Fs.exists_ cf s = true).
  { unfold Fs.exists_, Fs.is_file. by rewrite Hcd, Hcf. }
  assert (Hens : Config._ensureConfigFile CONFIG_FILE m s =
                 (Deferred.Fulfilled cf, s)).
  { by apply ensure_existing. }
  assert (Hcne : cf ≠ []).
  { intros Heq. rewrite Heq in Hcd. done. }
  assert (Hupd : ∀ V (change : _ → _ * V),
            Config.locked_update CONFIG_FILE change m s =
            (Deferred.Rejected "SyntaxError", s)).
  { intros V change. unfold Config.locked_update. rewrite Hens.
    fold cf. unfold Fs.lock. rewrite Hfree.
    apply ConfigFacts.exists_false in Hfree as Hfree'.
    destruct Hfree' as [Hld Hlf].
    unfold Fs.writeFile. rewrite Hld.
    rewrite FsFacts.dirname_add_ext, Hpd by done.
    unfold Fs.readFile. unfold Fs.is_dir at 1. cbn [Fs.dirs Fs.files].
    fold (Fs.is_dir cf s). rewrite Hcd.
    rewrite lookup_insert_ne by (by apply FsFacts.add_ext_ne).
    rewrite Hcf. by rewrite LockFacts.unlock_lock_id. }
  split_and!.
  - unfold Config.getConfig, Config.getAllConfigs. rewrite Hens.
    fold cf. by rewrite Hread.
  - cbn. by rewrite Hupd.
  - cbn. by rewrite Hupd.
Qed.

Lemma corrupt_config_untouched_witness :
  Config.setConfig config_file (Config.AStr "http_proxy")
    (Config.AStr "none") Client.new corrupt_home =
  Config.Returns (Deferred.Rejected "SyntaxError", corrupt_home).
Proof.
  assert (Hpd : Fs.is_dir (Fs.dirname (Config.getConfigFile config_file Client.new))
                  corrupt_home = true) by (vm_compute; reflexivity).
  assert (Hread : Fs.readFile (Config.getConfigFile config_file Client.new)
                    corrupt_home = inr (Json.Garbage "{oops"))
    by (vm_compute; reflexivity).
  assert (Hfree : Fs.exists_
                    (Fs.add_ext (Config.getConfigFile config_file Client.new)
                       ".lock") corrupt_home = false)
    by (vm_compute; reflexivity).
  exact (proj1 (proj2 (corrupt_config_untouched config_file Client.new
                         corrupt_home "http_proxy" "none" _ Hpd Hread Hfree))).
Defined.

Module DataFacts.
Import Fs FsModel Data.

Lemma elem_of_ancestors_self p : p ≠ [] → p ∈ ancestors p.
Proof.
  intros Hp. unfold ancestors. apply list_elem_of_fmap.
  exists (length p). split; [by rewrite firstn_all|].
  apply elem_of_seq. destruct p; [done|]. cbn. lia.
Qed.

Lemma is_dir_mkdir_p_self p s : is_dir p (mkdir_p p s) = true.
Proof.
  rewrite ConfigFacts.is_dir_mkdir_p.
  destruct (decide (p = [])) as [->|Hp]; [done|].
  rewrite (bool_decide_eq_true_2 (p ∈ ancestors p));
    [by rewrite orb_true_r|by apply elem_of_ancestors_self].
Qed.

Section Store.
Variable USER_DATA_FILE : list string.

(** What a save that succeeds leaves on disk. *)
Lemma save_fulfilled data s u s' :
  _saveAllData USER_DATA_FILE data s = (Deferred.Fulfilled u, s') →
  is_dir USER_DATA_FILE s' = false ∧
  files s' !! USER_DATA_FILE = Some (Json.Object data) ∧
  is_dir (dirname USER_DATA_FILE) s' = true.
Proof.
  unfold _saveAllData.
  set (s1 := if exists_ (dirname USER_DATA_FILE) s then s
             else mkdir_p (dirname USER_DATA_FILE) s).
  unfold writeFile. destruct (is_dir USER_DATA_FILE s1) eqn:Hd; [done|].
  destruct (is_dir (dirname USER_DATA_FILE) s1) eqn:Hp; [|done].
  intros [= _ <-]. split_and!; [done| |done]. cbn.
  by rewrite lookup_insert_eq.
Qed.

(** Loading from a tree on which the data file holds an object. *)
Lemma load_object data s :
  is_dir USER_DATA_FILE s = false →
  files s !! USER_DATA_FILE = Some (Json.Object data) →
  _loadAllData USER_DATA_FILE s = Deferred.Fulfilled data.
Proof.
  intros Hd Hf. unfold _loadAllData, exists_, is_file, readFile.
  by rewrite Hd, Hf.
Qed.

(** A save succeeds whenever the data file is not a directory and its
    directory is not a plain file: a missing directory is made. *)
Lemma save_succeeds data s :
  is_dir USER_DATA_FILE s = false →
  is_file (dirname USER_DATA_FILE) s = false →
  ∃ s', _saveAllData USER_DATA_FILE data s = (Deferred.Fulfilled tt, s').
Proof.
  intros Hd Hpf. unfold _saveAllData.
  assert (Hne : USER_DATA_FILE ≠ []).
  { intros Heq. rewrite Heq in Hd. done. }
  pose proof (FsFacts.length_dirname _ Hne) as Hlen.
  set (s1 := if exists_ (dirname USER_DATA_FILE) s then s
             else mkdir_p (dirname USER_DATA_FILE) s).
  assert (H1 : is_dir USER_DATA_FILE s1 = false ∧
               is_dir (dirname USER_DATA_FILE) s1 = true).
  { unfold s1. destruct (exists_ (dirname USER_DATA_FILE) s) eqn:Hex.
    - split; [done|]. unfold exists_ in Hex. rewrite Hpf in Hex.
      by rewrite orb_false_r in Hex.
    - split; [|apply is_dir_mkdir_p_self].
      by rewrite ConfigFacts.is_dir_mkdir_p_longer. }
  destruct H1 as [H1 H2]. unfold writeFile. rewrite H1, H2. eauto.
Qed.

End Store.
End DataFacts.







Module SyncFacts.
Import FileTree.

(** The entries that [_filterFiles] keeps, read off the tree. *)
Lemma kept_iff dst src h k e :
  (filterFiles dst src h).2 dst !! k = Some e ↔
  h dst !! k = Some e ∧ type e = File ∧
  (h src !! k = None ∨ ∃ s, h src !! k = Some s ∧ hash s ≠ hash e).
Proof.
  rewrite FileTreeFacts.filterFiles_lookup. unfold dropped.
  destruct (h dst !! k) as [d|] eqn:Hd; [|split; [done|intros [? _]; done]].
  destruct (decide (type d = Dir)) as [Hdir|Hdir].
  - rewrite bool_decide_eq_true_2 by done. cbn [orb].
    split; [done|]. intros (He & Hf & _). injection He as <-. congruence.
  - rewrite bool_decide_eq_false_2 by done. cbn [orb].
    assert (Hfile : type d = File) by (destruct (type d); done).
    destruct (h src !! k) as [s|] eqn:Hs.
    + case_bool_decide as Hh.
      * split; [done|]. intros (He & _ & [?|(s' & Hs' & Hne)]); [done|].
        injection He as <-. injection Hs' as <-. congruence.
      * split.
        -- intros He. injection He as <-. split_and!; [done..|].
           right. exists s. split; [done|congruence].
        -- intros [He _]. done.
    + split.
      * intros He. injection He as <-. split_and!; auto.
      * intros [He _]. done.
Qed.

Lemma starts_with_cons a w s :
  Str.starts_with (String a w) (String a s) = Str.starts_with w s.
Proof.
  change (Str.starts_with (String a w) (String a s))
    with (bool_decide (a = a) && Str.starts_with w s).
  by rewrite bool_decide_eq_true_2.
Qed.

Lemma NoDup_keys (t : gmap string entry) : NoDup (keys t).
Proof. apply NoDup_fst_map_to_list. Qed.

(** With no occurrence of a slash followed by a dot, and only then, no
    segment after the first begins with a dot. *)
Lemma tail_no_dot_no_slash_dot s : ∀ i,
  existsb (Str.starts_with ".") (tail (Str.split "/" s)) = false →
  (Str.indexOf_from "/." s i < 0)%Z.
Proof.
  induction s as [|a s IH]; intros i Hseg; [cbn; lia|].
  cbn [Str.split] in Hseg. cbn [Str.indexOf_from].
  destruct (StrFacts.split_hd "/" s) as (seg & segs & Heq & Hdot).
  rewrite Heq in Hseg. case_bool_decide as Ha.
  - subst a. cbn [tail existsb] in Hseg.
    apply orb_false_iff in Hseg as [Hseg1 Hseg2].
    rewrite Hdot in Hseg1 by done.
    assert (Hsw : Str.starts_with "/." (String "/" s) = false).
    { cbn. destruct s as [|b s]; [done|]. cbn in Hseg1 |- *.
      by rewrite andb_true_r in Hseg1 |- *. }
    rewrite Hsw. apply IH. by rewrite Heq.
  - cbn [tail] in Hseg.
    assert (Hsw : Str.starts_with "/." (String a s) = false).
    { cbn. by rewrite bool_decide_eq_false_2 by (intros Heq'; by subst a). }
    rewrite Hsw. apply IH. by rewrite Heq.
Qed.

End SyncFacts.

(** X11: [fileFilter] accepts a path exactly when it has no segment that
    begins with a dot and it is a top-level path or begins with [/www/],
    [/merges/] or [/plugins/]. *)
Theorem fileFilter_exact (fn : string) :
  Upload.fileFilter fn = true ↔
  Upload.has_hidden_segment fn = false ∧
  (Upload.top_level fn ∨ Str.starts_with "/www/" fn = true ∨
   Str.starts_with "/merges/" fn = true ∨
   Str.starts_with "/plugins/" fn = true).
Proof.
  split; [apply UploadFacts.fileFilter_true|].
  intros [Hhid Hscope].
  assert (Hfn : ∃ rest, fn = String "/" rest ∧
            (Str.starts_with "www/" rest || Str.starts_with "merges/" rest ||
             Str.starts_with "plugins/" rest ||
             negb (Str.has_char "/" rest)) = true).
  { destruct Hscope as [(name & -> & Hname)|Hpre].
    - exists name. split; [done|]. rewrite Hname. by rewrite !orb_true_r.
    - destruct fn as [|a rest]; [by destruct Hpre as [?|[?|?]]|].
      assert (Ha : a = "/"%char).
      { destruct Hpre as [H|[H|H]]; cbn in H;
          apply andb_true_iff in H as [H _]; by apply bool_decide_eq_true in H. }
      subst a. exists rest. split; [done|].
      destruct Hpre as [H|[H|H]];
        rewrite SyncFacts.starts_with_cons in H;
        rewrite H; by rewrite ?orb_true_r. }
  destruct Hfn as (rest & -> & Halt).
  unfold Upload.fileFilter.
  assert (Hidx : (Str.indexOf (String "/" rest) "/." < 0)%Z).
  { apply SyncFacts.tail_no_dot_no_slash_dot.
    unfold Upload.has_hidden_segment in Hhid. cbn [Str.split] in Hhid |- *.
    rewrite bool_decide_eq_true_2 in Hhid |- * by done.
    cbn [existsb tail] in Hhid |- *. exact Hhid. }
  apply Z.leb_gt in Hidx. rewrite Hidx, UploadFacts.scope_re_test.
  by rewrite bool_decide_eq_true_2, Halt.
Qed.

(** X12: the paths that [uploadProject] uploads are exactly the paths that
    pass [fileFilter] and hold, in the local tree, a file that the remote
    tree does not have or has with another hash; no path is uploaded
    twice. *)
Theorem uploadKeys_exact (localFiles remoteFiles : FileTree.loc)
    (h : FileTree.heap) :
  (∀ p, p ∈ Upload.uploadKeys localFiles remoteFiles h ↔
     Upload.fileFilter p = true ∧
     ∃ e, h localFiles !! p = Some e ∧ FileTree.type e = FileTree.File ∧
       (h remoteFiles !! p = None ∨
        ∃ r, h remoteFiles !! p = Some r ∧ FileTree.hash r ≠ FileTree.hash e)) ∧
  NoDup (Upload.uploadKeys localFiles remoteFiles h).
Proof.
  split.
  - intros p. unfold Upload.uploadKeys.
    rewrite list_elem_of_filter, FileTreeFacts.elem_of_keys.
    split.
    + intros [Hf [e He]]. split; [done|]. exists e.
      by apply SyncFacts.kept_iff.
    + intros [Hf (e & He)]. split; [done|]. exists e.
      by apply SyncFacts.kept_iff.
  - unfold Upload.uploadKeys. apply list.NoDup_filter, SyncFacts.NoDup_keys.
Qed.

(** X13: the paths that [downloadProject] downloads are exactly the paths
    that hold, in the remote tree, a file that the local tree does not have
    or has with another hash, whatever the path looks like; no path is
    downloaded twice. *)
Theorem downloadKeys_exact (localFiles remoteFiles : FileTree.loc)
    (h : FileTree.heap) :
  (∀ p, p ∈ FileTree.keys
              ((FileTree.filterFiles remoteFiles localFiles h).2 remoteFiles) ↔
     ∃ e, h remoteFiles !! p = Some e ∧ FileTree.type e = FileTree.File ∧
       (h localFiles !! p = None ∨
        ∃ l, h localFiles !! p = Some l ∧ FileTree.hash l ≠ FileTree.hash e)) ∧
  NoDup (FileTree.keys
           ((FileTree.filterFiles remoteFiles localFiles h).2 remoteFiles)).
Proof.
  split; [|apply SyncFacts.NoDup_keys].
  intros p. rewrite FileTreeFacts.elem_of_keys. split.
  - intros [e He]. exists e. by apply SyncFacts.kept_iff.
  - intros (e & He). exists e. by apply SyncFacts.kept_iff.
Qed.

(** X14: [_filterFiles] is idempotent: a second call with the same arguments
    deletes nothing more and changes no object. *)
Theorem filterFiles_idempotent (dst src : FileTree.loc) (h : FileTree.heap)
    (l : FileTree.loc) :
  (FileTree.filterFiles dst src (FileTree.filterFiles dst src h).2).2 l =
  (FileTree.filterFiles dst src h).2 l.
Proof.
  destruct (decide (l = dst)) as [->|Hl].
  - apply map_eq. intros k.
    set (h1 := (FileTree.filterFiles dst src h).2).
    destruct (h1 dst !! k) as [e|] eqn:H1.
    + apply SyncFacts.kept_iff. split; [done|].
      apply SyncFacts.kept_iff in H1 as (Hd & Hf & Hs). split; [done|].
      destruct (decide (src = dst)) as [->|Hne].
      * exfalso. destruct Hs as [Hs|(s & Hs & Hneq)]; congruence.
      * assert (Hsrc : h1 src = h src).
        { unfold h1, FileTree.filterFiles. cbn [snd].
          by apply FileTreeFacts.fold_other. }
        by rewrite Hsrc.
    + destruct ((FileTree.filterFiles dst src h1).2 dst !! k) as [e|] eqn:H2;
        [|done].
      apply SyncFacts.kept_iff in H2 as (Hd & _). congruence.
  - unfold FileTree.filterFiles. cbn [snd].
    by rewrite !FileTreeFacts.fold_other.
Qed.

Module BuildInvFacts.
Import Build BuildRuns BuildInv.

Lemma inv_buildProject arg : inv (buildProject arg).
Proof.
  unfold buildProject, inv. destruct (falsy _); cbn;
    (split_and!; [lia|done|done|done]).
Qed.

Ltac inv_unfold := unfold inv; BuildFacts.unfold_build.

Ltac inv_arith :=
  rewrite ?BuildFacts.status_posts_snoc; unfold status_posts in *; cbn.

Lemma build_inv_step st ev st' : inv st → step st ev = Some st' → inv st'.
Proof.
  intros (Hc & Hposts & Hint & Hsub) Hstep.
  destruct st as [qu c iv sb pl pr br po bu nt tr]. cbn in *.
  change (List.filter is_status_post tr) with (status_posts tr) in Hposts.
  destruct ev as [q|e| |r|e|m|e|v|e]; cbn in Hstep.
  - (* the submit response *)
    destruct sb; [|done]. injection Hstep as <-.
    destruct (Hsub eq_refl) as (-> & -> & ->). unfold pollBuild.
    inv_unfold. inv_arith.
    split_and!; [lia|done|intros _; split_and!; [lia|done..]|done].
  - destruct sb; [|done]. injection Hstep as <-.
    destruct (Hsub eq_refl) as (-> & -> & ->).
    assert (Hiv : iv = false).
    { destruct iv; [|done]. by destruct (Hint eq_refl) as (_ & _ & _ & ?). }
    subst iv. unfold submit_done. inv_unfold. inv_arith.
    split_and!; [lia|lia|done|done].
  - (* a tick *)
    destruct iv; [|done]. injection Hstep as <-.
    destruct (Hint eq_refl) as (Hc80 & -> & -> & ->).
    unfold on_tick. cbn [counter].
    destruct (c =? 80) eqn:H80.
    + apply Nat.eqb_eq in H80. inv_unfold. inv_arith.
      split_and!; [lia|lia|done|done].
    + apply Nat.eqb_neq in H80. inv_unfold. inv_arith.
      split_and!; [lia|lia|intros _; split_and!; [lia|done..]|done].
  - (* a status response *)
    destruct pl as [|n]; [done|]. injection Hstep as <-.
    assert (Hsb : sb = false).
    { destruct sb; [|done]. by destruct (Hsub eq_refl) as (_ & _ & ?). }
    subst sb. destruct r as [f s d]. destruct f.
    + (* finished *)
      destruct po, bu; inv_unfold; case_bool_decide; inv_arith;
        (split_and!; [lia|lia|done|done]).
    + destruct po, bu; inv_unfold; inv_arith;
        (split_and!; [lia|lia| |done]);
        intros ->; destruct (Hint eq_refl) as (? & ? & ? & ?);
        split_and!; done.
  - (* a status request failed *)
    destruct pl as [|n]; [done|]. injection Hstep as <-.
    assert (Hsb : sb = false).
    { destruct sb; [|done]. by destruct (Hsub eq_refl) as (_ & _ & ?). }
    subst sb.
    destruct po, bu; inv_unfold; inv_arith;
      (split_and!; [lia|lia|done|done]).
  - destruct pr as [|n]; [done|]. injection Hstep as <-.
    assert (Hiv : iv = false).
    { destruct iv; [|done]. by destruct (Hint eq_refl) as (_ & _ & ? & _). }
    assert (Hsb : sb = false).
    { destruct sb; [|done]. by destruct (Hsub eq_refl) as (_ & ? & _). }
    subst iv sb.
    destruct po, bu; inv_unfold; inv_arith;
      (split_and!; [lia|lia|done|done]).
  - destruct pr as [|n]; [done|]. injection Hstep as <-.
    assert (Hiv : iv = false).
    { destruct iv; [|done]. by destruct (Hint eq_refl) as (_ & _ & ? & _). }
    assert (Hsb : sb = false).
    { destruct sb; [|done]. by destruct (Hsub eq_refl) as (_ & ? & _). }
    subst iv sb.
    destruct po, bu; inv_unfold; inv_arith;
      (split_and!; [lia|lia|done|done]).
  - destruct br as [|n]; [done|]. injection Hstep as <-.
    inv_unfold. inv_arith. split_and!; [lia|lia|done|done].
  - destruct br as [|n]; [done|]. injection Hstep as <-.
    inv_unfold. inv_arith. split_and!; [lia|lia|done|done].
Qed.

Lemma build_inv_run evs : ∀ st st', inv st → run st evs = Some st' → inv st'.
Proof.
  induction evs as [|ev evs IH]; intros st st' Hinv Hrun; cbn in Hrun.
  - by injection Hrun as <-.
  - destruct (step st ev) as [st1|] eqn:Hstep; [|done].
    eapply IH; [|done]. by eapply build_inv_step.
Qed.

End BuildInvFacts.

(** X15: in every execution of [buildProject], whatever the order of ticks
    and responses, the timer is set only while the promise of [pollBuild] is
    pending: once the poller has resolved or rejected (job finished, status
    request failed, or timeout) the timer is cleared and no tick follows. *)
Theorem poll_timer_cleared_when_settled (arg : option Build.params)
    (evs : list Build.event) (st : Build.state) :
  Build.run (Build.buildProject arg) evs = Some st →
  (Build.poll st ≠ Deferred.Pending → Build.interval st = false) ∧
  (Build.poll st ≠ Deferred.Pending → Build.step st Build.Tick = None).
Proof.
  intros Hrun.
  pose proof (BuildInvFacts.build_inv_run evs _ _
                (BuildInvFacts.inv_buildProject arg) Hrun)
    as (_ & _ & Hint & _).
  assert (H : Build.poll st ≠ Deferred.Pending → Build.interval st = false).
  { intros Hp. destruct (Build.interval st); [|done].
    by destruct (Hint eq_refl) as (_ & ? & _). }
  split; [done|]. intros Hp. cbn. by rewrite (H Hp).
Qed.

Lemma poll_timer_cleared_when_settled_witness :
  Build.interval failed_Q1 = false ∧ Build.step failed_Q1 Build.Tick = None.
Proof.
  assert (Hrun : Build.run (Build.buildProject (Some BuildRuns.android))
                   [Build.SubmitOk "Q1"; Build.Tick;
                    Build.StatusErr "ECONNRESET"] = Some failed_Q1)
    by reflexivity.
  assert (Hp : Build.poll failed_Q1 ≠ Deferred.Pending) by discriminate.
  exact (conj (proj1 (poll_timer_cleared_when_settled _ _ _ Hrun) Hp)
              (proj2 (poll_timer_cleared_when_settled _ _ _ Hrun) Hp)).
Defined.

(** X16: in every execution of [buildProject], whatever the order of ticks
    and responses, one status request has been sent for every tick that
    [pollBuild] has counted, and never more than 81 in all. *)
Theorem status_requests_bounded (arg : option Build.params)
    (evs : list Build.event) (st : Build.state) :
  Build.run (Build.buildProject arg) evs = Some st →
  length (Build.status_posts (Build.trace st)) = Build.counter st ∧
  length (Build.status_posts (Build.trace st)) ≤ 81.
Proof.
  intros Hrun.
  pose proof (BuildInvFacts.build_inv_run evs _ _
                (BuildInvFacts.inv_buildProject arg) Hrun)
    as (Hc & Hposts & _ & _).
  split; [done|]. by rewrite Hposts.
Qed.

Lemma status_requests_bounded_witness :
  length (Build.status_posts (Build.trace polling_Q1)) =
    Build.counter polling_Q1 ∧
  length (Build.status_posts (Build.trace polling_Q1)) ≤ 81.
Proof.
  assert (Hrun : Build.run (Build.buildProject (Some BuildRuns.android))
                   [Build.SubmitOk "Q1"; Build.Tick] = Some polling_Q1)
    by reflexivity.
  exact (status_requests_bounded _ _ _ Hrun).
Defined.

(** X17: a status request that fails while the poller is pending ends the
    polling at once: the timer is cleared, the poller and, if it was still
    pending, the build are rejected with the error of the request, and no
    result request is sent. *)
Theorem status_error_is_final (st : Build.state) (n : nat) (e : string) :
  Build.polls st = S n →
  Build.poll st = Deferred.Pending →
  ∃ st',
    Build.step st (Build.StatusErr e) = Some st' ∧
    Build.interval st' = false ∧
    Build.poll st' = Deferred.Rejected e ∧
    Build.build st' = Deferred.reject e (Build.build st) ∧
    Build.trace st' =
      Build.trace st ++
      [Build.ClearInterval; Build.PollReject e; Build.BuildReject e] ∧
    Build.step st' Build.Tick = None.
Proof.
  intros Hn Hp. destruct st as [qu c iv sb pl pr br po bu nt tr].
  cbn in *. subst pl po. eexists. split; [reflexivity|].
  BuildFacts.unfold_build. split_and!; try reflexivity.
  by rewrite <- !app_assoc.
Qed.

Lemma status_error_is_final_witness :
  ∃ st',
    Build.step polling_Q1 (Build.StatusErr "ECONNRESET") = Some st' ∧
    Build.interval st' = false ∧
    Build.poll st' = Deferred.Rejected "ECONNRESET" ∧
    Build.build st' = Deferred.reject "ECONNRESET" (Build.build polling_Q1) ∧
    Build.trace st' =
      Build.trace polling_Q1 ++
      [Build.ClearInterval; Build.PollReject "ECONNRESET";
       Build.BuildReject "ECONNRESET"] ∧
    Build.step st' Build.Tick = None.
Proof.
  exact (status_error_is_final polling_Q1 0 "ECONNRESET" eq_refl eq_refl).
Defined.

Module ProgressFacts.
Import Batch BatchModel.

Lemma ok_prefix_lookup evs : ∀ i ev,
  ok_prefix evs !! i = Some ev → evs !! i = Some ev ∧ ev_outcome ev = Ok.
Proof.
  induction evs as [|x evs IH]; intros i ev; cbn [ok_prefix]; [done|].
  unfold is_ok. destruct (ev_outcome x) eqn:Hx; [|done].
  destruct i as [|i]; cbn.
  - intros [= <-]. done.
  - apply IH.
Qed.

Lemma ok_prefix_length evs : length (ok_prefix evs) ≤ length evs.
Proof.
  induction evs as [|x evs IH]; cbn [ok_prefix]; [done|].
  destruct (is_ok x); cbn; lia.
Qed.

End ProgressFacts.

(** X18: in a batch of [n] transfers, the progress events that the caller
    sees are numbered without gaps: the event at position [i] carries index
    [i] and total [n], and it reports the [i]-th transfer that completed,
    which succeeded; there are never more events than completions. *)
Theorem progress_indices_count_up {V : Type} (report : string → string)
    (finish : Deferred.state V Batch.error → Deferred.state V Batch.error)
    (n : nat) (evs : list Batch.event) :
  length evs ≤ n →
  length (Batch.notified (Batch.run report finish n evs)) ≤ length evs ∧
  ∀ i p,
    Batch.notified (Batch.run report finish n evs) !! i = Some p →
    Batch.index p = i ∧ Batch.total p = n ∧
    ∃ ev, evs !! i = Some ev ∧ Batch.ev_outcome ev = Batch.Ok ∧
          Batch.path p = report (Batch.ev_key ev).
Proof.
  intros Hlen.
  rewrite (BatchModel.inv_notified _ _ _ _ _
             (BatchFacts.inv_run report finish n evs Hlen)).
  split.
  - rewrite length_imap. apply ProgressFacts.ok_prefix_length.
  - intros i p. rewrite list_lookup_imap.
    destruct (BatchModel.ok_prefix evs !! i) as [ev|] eqn:Hev; [|done].
    cbn. intros [= <-]. cbn.
    apply ProgressFacts.ok_prefix_lookup in Hev as [Hev Hok].
    split; [done|]. split; [done|]. by exists ev.
Qed.

Lemma progress_indices_count_up_witness :
  length (Batch.notified
            (Batch.run (λ key, key) (Deferred.resolve "p1") 2
               [Batch.Settle "/www/a.js" Batch.Ok;
                Batch.Settle "/www/b.js" Batch.Ok])) ≤ 2.
Proof.
  assert (Hlen : length [Batch.Settle "/www/a.js" Batch.Ok;
                         Batch.Settle "/www/b.js" Batch.Ok] ≤ 2) by (cbn; lia).
  exact (proj1 (progress_indices_count_up (λ key, key)
                  (Deferred.resolve "p1") 2 _ Hlen)).
Defined.

(** X19: for a remote tree with at least one entry, [cloneProject] is
    rejected with the error of the first download that fails; when every
    file of the tree has been downloaded it resolves with the destination
    directory if the project id could be saved, and stays pending for ever
    if it could not; until then it is pending. *)
Theorem cloneProject_outcome (join : string → string → string)
    (destDir : string) (saved : bool) (files : gmap string FileTree.entry)
    (evs : list Batch.event) :
  FileTree.keys files ≠ [] →
  length evs ≤ length (Transfer.clone_keys files) →
  Batch.deferred (Transfer.cloneProject join destDir saved files evs) =
  match Batch.first_err evs with
  | Some e => Deferred.Rejected e
  | None =>
      if decide (length evs = length (Transfer.clone_keys files))
      then if saved then Deferred.Fulfilled destDir else Deferred.Pending
      else Deferred.Pending
  end.
Proof.
  intros Hne Hlen. unfold Transfer.cloneProject.
  rewrite TransferFacts.clone_totalLength_files by done.
  rewrite BatchOutcome.deferred_run by done.
  destruct (Batch.first_err evs); [done|].
  case_decide; [|done]. by destruct saved.
Qed.

Lemma cloneProject_outcome_witness :
  Batch.deferred
    (Transfer.cloneProject (λ a b, a +:+ b) "/dest" true tree_a111
       [Batch.Settle "/a.js" Batch.Ok]) =
  Deferred.Fulfilled "/dest".
Proof.
  assert (Hne : FileTree.keys tree_a111 ≠ []) by (vm_compute; discriminate).
  assert (Hlen : length [Batch.Settle "/a.js" Batch.Ok] ≤
                 length (Transfer.clone_keys tree_a111)) by (vm_compute; lia).
  exact (cloneProject_outcome (λ a b, a +:+ b) "/dest" true tree_a111 _
           Hne Hlen).
Defined.

Module ScanErrorFacts.
Import FileTree Scan.

Section Scanner.
Variable crc32hex : string → string.

Lemma q_all_inl l e :
  q_all (flat_map (promised crc32hex) l) = inl e →
  ∃ name, (name, NUnreadable e) ∈ l.
Proof.
  induction l as [|[name n] l IH]; [done|]. cbn [flat_map].
  unfold promised at 1. cbn [fst snd].
  destruct n as [|data|err]; cbn [app q_all].
  - intros H. destruct (IH H) as [x Hx]. exists x. by apply list_elem_of_further.
  - destruct (q_all (flat_map (promised crc32hex) l)) as [e'|rs] eqn:Hq;
      [|done].
    intros [= <-]. destruct (IH eq_refl) as [x Hx]. exists x.
    by apply list_elem_of_further.
  - intros [= <-]. exists name. apply list_elem_of_here.
Qed.

Lemma q_all_unreadable l name e :
  (name, NUnreadable e) ∈ l →
  ∃ e', q_all (flat_map (promised crc32hex) l) = inl e'.
Proof.
  induction l as [|[name' n] l IH]; intros Hin.
  - by apply elem_of_nil in Hin.
  - cbn [flat_map]. unfold promised at 1. cbn [fst snd].
    apply elem_of_cons in Hin as [[= <- <-]|Hin].
    + cbn. eauto.
    + destruct (IH Hin) as [e' He']. destruct n as [|data|err]; cbn [app q_all].
      * eauto.
      * rewrite He'. eauto.
      * eauto.
Qed.

End Scanner.
End ScanErrorFacts.

(** X20: the scan of an existing root is rejected exactly when some file
    whose name does not begin with [node_modules] cannot be read, and then
    with the error of such a file; a file that cannot be read under
    [node_modules] does no harm, while the metadata file, although it is
    left out of the tree, must be readable. *)
Theorem scan_rejected_iff_unreadable (crc32hex : string → string)
    (projectDir : string) (ls : list (string * Scan.node)) :
  (∀ e, Scan.getLocalProjectFiles crc32hex projectDir (Some ls) =
          Deferred.Rejected e →
        ∃ name, (name, Scan.NUnreadable e) ∈ ls ∧
                Str.starts_with "node_modules" name = false) ∧
  (∀ name e, (name, Scan.NUnreadable e) ∈ ls →
     Str.starts_with "node_modules" name = false →
     ∃ e', Scan.getLocalProjectFiles crc32hex projectDir (Some ls) =
             Deferred.Rejected e').
Proof.
  unfold Scan.getLocalProjectFiles.
  set (l := filter (λ f, Scan.listed f.1 = true) ls).
  rewrite ScanFacts.foldl_visit. cbn [fst snd app].
  assert (Hl : ∀ name n, (name, n) ∈ l ↔
            (name, n) ∈ ls ∧ Str.starts_with "node_modules" name = false).
  { intros name n. unfold l. rewrite list_elem_of_filter. cbn [fst].
    rewrite ScanFacts.listed_starts_with, negb_true_iff. tauto. }
  split.
  - intros e.
    destruct (Scan.q_all _) as [e'|rs] eqn:Hq; [|done].
    intros [= <-]. apply ScanErrorFacts.q_all_inl in Hq as [name Hin].
    exists name. by apply Hl.
  - intros name e Hin Hsw.
    assert (Hinl : (name, Scan.NUnreadable e) ∈ l) by (by apply Hl).
    destruct (ScanErrorFacts.q_all_unreadable crc32hex l _ _ Hinl) as [e' ->].
    eauto.
Qed.

(** * The session and the requests *)

Module SessionFacts.
Import Client Session SessionModel.

Lemma consistent_new : consistent Client.new.
Proof. split; [done|]. by intros [x Hx]. Qed.

Section Session.
Variable USER_DATA_FILE : list string.
Variable CONFIG_FILE : list string.
Variable truthy_text : string → bool.

(** [_login] leaves the object alone unless it resolves, and then the
    object is logged in and has its tokens. *)
Lemma _login_client cred data_first r m s :
  let o := _login USER_DATA_FILE CONFIG_FILE truthy_text cred data_first r m s in
  (client o = m ∧ promise o ≠ Deferred.Fulfilled tt) ∨
  (promise o = Deferred.Fulfilled tt ∧ _loggedIn (client o) = true ∧
   is_Some (tokens_ (client o)) ∧ _configFile (client o) = _configFile m).
Proof.
  unfold _login.
  destruct (Http.http_proxy CONFIG_FILE m s) as [proxy s1].
  destruct (q_all2 _ _ _) as [|[clientId httpProxy]|error]; cbn;
    [by left| |by left].
  destruct r as [code|statusCode headers [|text| |result message]]; cbn;
    try (by left);
    case_bool_decide; cbn; try (by left);
    try (destruct result as [result|]; cbn; try (by left));
    destruct (Data.setData _ _ _ s1) as [[|v|error] s2]; cbn; try (by left);
    destruct (Data.setData _ _ _ s2) as [[|v'|error] s3]; cbn; try (by left);
    right; split_and!; eauto.
Qed.

Lemma _login_consistent cred data_first r m s :
  consistent m →
  consistent
    (client (_login USER_DATA_FILE CONFIG_FILE truthy_text cred data_first r m s)).
Proof.
  intros Hm.
  destruct (_login_client cred data_first r m s) as [[-> _]|(_ & Hl & Ht & _)];
    [done|].
  by split.
Qed.

Lemma relogin_consistent data_first r m s :
  consistent m →
  consistent
    (client (relogin USER_DATA_FILE CONFIG_FILE truthy_text data_first r m s)).
Proof.
  intros Hm. unfold relogin.
  destruct (Data.getData _ _ _) as [|tok|error]; [done| |done].
  by apply _login_consistent.
Qed.

Lemma logout_consistent m s :
  consistent m → consistent (client (logout USER_DATA_FILE m s)).
Proof.
  intros Hm. unfold logout.
  destruct (Data.setData _ _ _ s) as [[|v|error] s1]; cbn; [done| |done].
  split; [done|]. by intros [x Hx].
Qed.

Lemma exec_consistent st o :
  consistent st.1 →
  consistent (exec USER_DATA_FILE CONFIG_FILE truthy_text st o).1.
Proof.
  intros Hm. destruct o as [email password data_first r|data_first r| |cf];
    cbn [exec fst].
  - by apply _login_consistent.
  - by apply relogin_consistent.
  - by apply logout_consistent.
  - unfold Config.setConfigFile. by destruct (Fs.exists_ _ _).
Qed.

Lemma foldl_consistent ops : ∀ st,
  consistent st.1 →
  consistent (foldl (exec USER_DATA_FILE CONFIG_FILE truthy_text) st ops).1.
Proof.
  induction ops as [|o ops IH]; intros st Hst; [done|].
  cbn [foldl]. apply IH. by apply exec_consistent.
Qed.

Lemma after_consistent s ops :
  consistent (after USER_DATA_FILE CONFIG_FILE truthy_text s ops).1.
Proof. apply foldl_consistent. apply consistent_new. Qed.

End Session.
End SessionFacts.

(** X21: on an object made by [new Monaca()] and used through [login],
    [relogin], [logout] and [setConfigFile], whatever the server and the
    disk do, [this.tokens] is defined exactly when [this._loggedIn] is
    true. *)
Theorem logged_in_iff_tokens (USER_DATA_FILE CONFIG_FILE : list string)
    (truthy_text : string → bool) (s : Fs.fs) (ops : list Session.op) :
  Client._loggedIn
    (Session.after USER_DATA_FILE CONFIG_FILE truthy_text s ops).1 = true ↔
  is_Some
    (Client.tokens_
       (Session.after USER_DATA_FILE CONFIG_FILE truthy_text s ops).1).
Proof. apply SessionFacts.after_consistent. Qed.


Module ReloginFacts.
Import Client Session.

Section Session.
Variable USER_DATA_FILE : list string.
Variable CONFIG_FILE : list string.
Variable truthy_text : string → bool.

(** The one request of [_login] carries the credentials it was given. *)
Lemma _login_sent cred data_first r m s q :
  q ∈ sent (_login USER_DATA_FILE CONFIG_FILE truthy_text cred data_first r m s) →
  match cred with
  | Token t => f_token q.2 = Some t ∧ f_email q.2 = None ∧ f_password q.2 = None
  | Password email password =>
      f_token q.2 = None ∧ f_email q.2 = Some email ∧
      f_password q.2 = Some password
  end.
Proof.
  unfold _login.
  destruct (Http.http_proxy CONFIG_FILE m s) as [proxy s1].
  destruct (q_all2 _ _ _) as [|[clientId httpProxy]|error]; cbn [sent];
    [by intros ?%elem_of_nil| |by intros ?%elem_of_nil].
  set (form := if truthy truthy_text clientId then _ else _).
  assert (Hform : ∀ q, q ∈ [(httpProxy, form)] →
            match cred with
            | Token t =>
                f_token q.2 = Some t ∧ f_email q.2 = None ∧ f_password q.2 = None
            | Password email password =>
                f_token q.2 = None ∧ f_email q.2 = Some email ∧
                f_password q.2 = Some password
            end).
  { intros q' ->%list_elem_of_singleton. unfold form.
    destruct (truthy truthy_text clientId), cred; done. }
  intros Hq. apply Hform. revert Hq.
  destruct r as [code|statusCode headers [|text| |result message]];
    cbn [sent]; try done;
    case_bool_decide; cbn [sent]; try done;
    try (destruct result as [result|]; cbn [result_of sent]; try done);
    destruct (Data.setData _ _ _ s1) as [[|v|error] s2]; cbn [sent];
    try done;
    by destruct (Data.setData _ _ _ s2) as [[|v'|error] s3].
Qed.

(** What [getData] gives for a key after a [setData] of it that
    resolved. *)
Lemma setData_get_eq s s' k v r0 :
  k ≠ "__proto__" →
  Data.setData USER_DATA_FILE k v s = (Deferred.Fulfilled r0, s') →
  Data.getData USER_DATA_FILE k s' =
    Deferred.Fulfilled
      match v with Some x => Json.Value x | None => Json.get ∅ k end.
Proof.
  intros Hk. unfold Data.setData.
  destruct (Data._loadAllData USER_DATA_FILE s) as [|data|err]; [done| |done].
  destruct (Data._saveAllData _ _ s) as [[|u|err] s1] eqn:Hsave;
    [done| |done].
  intros [= <- <-].
  apply DataFacts.save_fulfilled in Hsave as (Hd & Hf & _).
  unfold Data.getData. rewrite (DataFacts.load_object _ _ _ Hd Hf).
  f_equal. destruct v as [x|]; cbn [Json.put_opt].
  - by apply JsonFacts.get_put_eq.
  - apply JsonFacts.get_delete_eq.
Qed.

(** A [setData] that resolved was made on a data file that can be read, and
    the other keys read as before. *)
Lemma setData_get_ne s s' k k' v r0 :
  Data.setData USER_DATA_FILE k v s = (Deferred.Fulfilled r0, s') →
  k' ≠ k →
  ∃ x, Data.getData USER_DATA_FILE k' s = Deferred.Fulfilled x ∧
       Data.getData USER_DATA_FILE k' s' = Deferred.Fulfilled x.
Proof.
  unfold Data.setData, Data.getData.
  destruct (Data._loadAllData USER_DATA_FILE s) as [|data|err]; [done| |done].
  destruct (Data._saveAllData _ _ s) as [[|u|err] s1] eqn:Hsave;
    [done| |done].
  intros [= <- <-] Hk.
  apply DataFacts.save_fulfilled in Hsave as (Hd & Hf & _).
  rewrite (DataFacts.load_object _ _ _ Hd Hf).
  exists (Json.get data k'). split; [done|]. f_equal.
  destruct v as [x|]; cbn [Json.put_opt].
  - by apply JsonFacts.get_put_ne.
  - by apply JsonFacts.get_delete_ne.
Qed.

(** The requests of a [relogin] on a tree whose relogin token reads
    [tok]. *)
Lemma relogin_sent tok data_first r m s q :
  Data.getData USER_DATA_FILE "reloginToken" s = Deferred.Fulfilled tok →
  q ∈ sent (relogin USER_DATA_FILE CONFIG_FILE truthy_text data_first r m s) →
  f_token q.2 = Some tok ∧ f_email q.2 = None ∧ f_password q.2 = None.
Proof.
  intros Hget. unfold relogin. rewrite Hget.
  apply (_login_sent (Token tok)).
Qed.

(** What a [_login] that resolves has received and done. *)
Lemma _login_fulfilled cred data_first r m s :
  promise (_login USER_DATA_FILE CONFIG_FILE truthy_text cred data_first r m s) =
    Deferred.Fulfilled tt →
  ∃ headers result message s1 s2 v v',
    r = LoginResponse 200 headers (Parsed (Some result) message) ∧
    Data.setData USER_DATA_FILE "reloginToken" (Client.token result) s1 =
      (Deferred.Fulfilled v, s2) ∧
    Data.setData USER_DATA_FILE "clientId" (Client.clientId result) s2 =
      (Deferred.Fulfilled v',
       tree (_login USER_DATA_FILE CONFIG_FILE truthy_text cred data_first r m s)) ∧
    client (_login USER_DATA_FILE CONFIG_FILE truthy_text cred data_first r m s) =
      Monaca true
        (Some (Tokens (headers !! "x-monaca-param-api-token")
                 (headers !! "x-monaca-param-session")))
        (Some result) (_configFile m).
Proof.
  unfold _login.
  destruct (Http.http_proxy CONFIG_FILE m s) as [proxy s1].
  destruct (q_all2 _ _ _) as [|[clientId httpProxy]|error]; cbn [promise];
    [done| |done].
  destruct r as [code|statusCode headers [|text| |result message]];
    cbn [promise]; try done;
    case_bool_decide as Hsc; cbn [promise result_of]; try done.
  destruct result as [result|]; cbn [promise]; [|done].
  destruct (Data.setData _ _ _ s1) as [[|v|error] s2] eqn:H1; cbn [promise];
    [done| |done].
  destruct (Data.setData _ _ _ s2) as [[|v'|error] s3] eqn:H2; cbn [promise];
    [done| |done].
  intros _. subst statusCode. cbn [tree client].
  exists headers, result, message, s1, s2, v, v'. done.
Qed.

End Session.
End ReloginFacts.




(** X25: the callback of the login request throws, and the login promise
    then stays pending for ever with the object unchanged, exactly when the
    request was answered by a body that does not parse, by the body [null],
    or with status 200 by a body without [result]. *)
Theorem login_reply_unreadable (USER_DATA_FILE CONFIG_FILE : list string)
    (truthy_text : string → bool) (cred : Session.credentials)
    (data_first : bool) (r : Session.reply) (m : Client.monaca) (s : Fs.fs) :
  let o := Session._login USER_DATA_FILE CONFIG_FILE truthy_text cred
             data_first r m s in
  Session.uncaught o =
    match Session.sent o, r with
    | _ :: _, Session.LoginResponse statusCode _ body =>
        match body with
        | Session.Malformed _ => Some Http.SyntaxError
        | Session.JsonNull => Some Http.TypeError
        | Session.NoBody | Session.Parsed None _ =>
            if bool_decide (statusCode = 200) then Some Http.TypeError
            else None
        | Session.Parsed (Some _) _ => None
        end
    | _, _ => None
    end ∧
  (is_Some (Session.uncaught o) →
   Session.promise o = Deferred.Pending ∧ Session.client o = m).
Proof.
  intros o. unfold o, Session._login.
  destruct (Http.http_proxy CONFIG_FILE m s) as [proxy s1].
  destruct (Session.q_all2 _ _ _) as [|[clientId httpProxy]|error]; cbn;
    [by split; [|intros [? ?]]| |by split; [|intros [? ?]]].
  destruct r as [code|statusCode headers [|text| |result message]]; cbn;
    try (by split; [|intros [? ?]]);
    case_bool_decide; cbn; try (by split; [|intros [? ?]]);
    try (destruct result as [result|]; cbn; try (by split; [|intros [? ?]]));
    destruct (Data.setData _ _ _ s1) as [[|v|error] s2]; cbn;
    try (by split; [|intros [? ?]]);
    destruct (Data.setData _ _ _ s2) as [[|v'|error] s3]; cbn;
    by split; [|intros [? ?]].
Qed.

Module HttpFacts.
Import Client Http.

Section Client.
Variable CONFIG_FILE : list string.

(** Reading the proxy setting leaves the tree that [_ensureConfigFile]
    leaves. *)
Lemma http_proxy_tree m s :
  (http_proxy CONFIG_FILE m s).2 = (Config._ensureConfigFile CONFIG_FILE m s).2.
Proof.
  unfold http_proxy, Config.getConfig, Config.getAllConfigs.
  destruct (Config._ensureConfigFile CONFIG_FILE m s) as [[|cf|error] s1];
    cbn [snd]; [done| |done].
  by destruct (Fs.readFile cf s1) as [error|[ob|text]].
Qed.

(** [_ensureConfigFile] writes no file but the config file. *)
Lemma ensure_files_other m s q :
  q ≠ Config.getConfigFile CONFIG_FILE m →
  Fs.files (Config._ensureConfigFile CONFIG_FILE m s).2 !! q = Fs.files s !! q.
Proof.
  intros Hq. unfold Config._ensureConfigFile.
  set (cf := Config.getConfigFile CONFIG_FILE m) in *.
  set (s1 := if Fs.exists_ (Fs.dirname cf) s then s
             else Fs.mkdir_p (Fs.dirname (Fs.dirname cf)) s).
  assert (H1 : Fs.files s1 = Fs.files s).
  { unfold s1. by destruct (Fs.exists_ (Fs.dirname cf) s). }
  destruct (Fs.exists_ cf s1); cbn [snd]; [by rewrite H1|].
  unfold Fs.writeFile. destruct (Fs.is_dir cf s1); cbn [snd]; [by rewrite H1|].
  destruct (Fs.is_dir (Fs.dirname cf) s1); cbn [snd Fs.files];
    [|by rewrite H1].
  rewrite lookup_insert_ne by done. by rewrite H1.
Qed.

(** [_post] sends at most one request, and only when the object is logged
    in; the promise is fulfilled only by a response with status 200 or
    201, with its body. *)
Lemma _post_sent {D : Type} resource (data : D) m s r q :
  q ∈ sent (_post CONFIG_FILE resource data m s r) →
  _loggedIn m = true ∧
  sent (_post CONFIG_FILE resource data m s r) = [q] ∧
  method q = POST ∧ url q = resource_path resource ∧
  formData q = Some data ∧
  (∃ t, tokens_ m = Some t ∧ qs q = api_qs t ∧ cookie q = session t) ∧
  promise (_post CONFIG_FILE resource data m s r) = post_settle r.
Proof.
  unfold _post. destruct (_loggedIn m); cbn [negb sent];
    [|by intros ?%elem_of_nil].
  destruct (http_proxy CONFIG_FILE m s) as [[|proxy|error] s1]; cbn [sent];
    [by intros ?%elem_of_nil| |by intros ?%elem_of_nil].
  destruct (tokens_ m) as [t|]; cbn [sent promise];
    [|by intros ?%elem_of_nil].
  intros ->%list_elem_of_singleton. cbn. split_and!; try done. by exists t.
Qed.

Lemma _post_tree {D : Type} resource (data : D) m s r :
  tree (_post CONFIG_FILE resource data m s r) = s ∨
  tree (_post CONFIG_FILE resource data m s r) =
    (Config._ensureConfigFile CONFIG_FILE m s).2.
Proof.
  rewrite <- http_proxy_tree. unfold _post.
  destruct (_loggedIn m); cbn [negb tree]; [|by left].
  destruct (http_proxy CONFIG_FILE m s) as [[|proxy|error] s1]; cbn [tree snd];
    [by right| |by right].
  destruct (tokens_ m); by right.
Qed.

Lemma _post_fulfilled {D : Type} resource (data : D) m s r body :
  promise (_post CONFIG_FILE resource data m s r) = Deferred.Fulfilled body →
  (∃ statusCode, r = Response statusCode body ∧
                 (statusCode = 200 ∨ statusCode = 201)) ∧
  length (sent (_post CONFIG_FILE resource data m s r)) = 1.
Proof.
  unfold _post. destruct (_loggedIn m); cbn [negb promise]; [|done].
  destruct (http_proxy CONFIG_FILE m s) as [[|proxy|error] s1];
    cbn [promise]; [done| |done].
  destruct (tokens_ m) as [t|]; cbn [promise sent]; [|done].
  unfold post_settle. destruct r as [code|statusCode body']; [done|].
  destruct (bool_decide (statusCode = 200) || bool_decide (statusCode = 201))
    eqn:Hsc.
  - intros [= ->]. split; [|done]. exists statusCode. split; [done|].
    apply orb_true_iff in Hsc as [H%bool_decide_eq_true|H%bool_decide_eq_true];
      auto.
  - by destruct (message body').
Qed.

End Client.

Lemma resource_path_project projectId op :
  resource_path ("/project/" +:+ projectId +:+ op) =
  "/project/" +:+ projectId +:+ op.
Proof. done. Qed.

End HttpFacts.



(** X27: a [downloadFile] that does not resolve has written nothing at the
    local path, unless the local path is the config file itself; and it
    resolves only with the local path, after a response with status 200 or
    201 to the one request it has sent. *)
Theorem downloadFile_failure_writes_nothing (CONFIG_FILE : list string)
    (projectId remotePath : string) (localPath : list string)
    (m : Client.monaca) (s : Fs.fs) (r : Http.reply) :
  localPath ≠ Config.getConfigFile CONFIG_FILE m →
  let o := Http.downloadFile CONFIG_FILE projectId remotePath localPath m s r in
  match Http.promise o with
  | Deferred.Fulfilled p =>
      p = localPath ∧ length (Http.sent o) = 1 ∧
      ∃ statusCode body,
        r = Http.Response statusCode body ∧
        (statusCode = 200 ∨ statusCode = 201) ∧
        Fs.files (Http.tree o) !! localPath = Some body
  | _ => Fs.files (Http.tree o) !! localPath = Fs.files s !! localPath
  end.
Proof.
  intros Hcf o. unfold o, Http.downloadFile.
  set (p := Http._post CONFIG_FILE _ _ m s r).
  assert (Hfiles : Fs.files (Http.tree p) !! localPath =
                   Fs.files s !! localPath).
  { destruct (HttpFacts._post_tree CONFIG_FILE
                ("/project/" +:+ projectId +:+ "/file/read")
                (Http.ReadFile remotePath) m s r) as [H|H];
      fold p in H; rewrite H; [done|].
    by apply HttpFacts.ensure_files_other. }
  destruct (Http.promise p) as [|body|error] eqn:Hp;
    cbn [Http.promise Http.tree]; [done| |done].
  apply HttpFacts._post_fulfilled in Hp as [(statusCode & -> & Hsc) Hlen].
  fold p in Hlen.
  set (s1 := if Fs.exists_ (Fs.dirname localPath) (Http.tree p)
             then Http.tree p
             else Fs.mkdir_p (Fs.dirname localPath) (Http.tree p)).
  assert (H1 : Fs.files s1 = Fs.files (Http.tree p)).
  { unfold s1. by destruct (Fs.exists_ _ _). }
  unfold Fs.writeFile. destruct (Fs.is_dir localPath s1);
    cbn [Http.promise Http.tree Http.sent]; [by rewrite H1|].
  destruct (Fs.is_dir (Fs.dirname localPath) s1);
    cbn [Http.promise Http.tree Http.sent]; [|by rewrite H1].
  split_and!; [done|done|]. exists statusCode, body.
  split_and!; [done|done|]. cbn [Fs.files]. by rewrite lookup_insert_eq.
Qed.

Lemma downloadFile_failure_writes_nothing_witness :
  Fs.files
    (Http.tree
       (Http.downloadFile config_file "p1" "/index.html"
          (home ++ ["app"; "index.html"]) logged_in project_home
          (Http.Response 404 (Json.Garbage "Not found")))) !!
    (home ++ ["app"; "index.html"]) =
  Fs.files project_home !! (home ++ ["app"; "index.html"]).
Proof.
  assert (Hcf : home ++ ["app"; "index.html"] ≠
                Config.getConfigFile config_file logged_in)
    by (vm_compute; discriminate).
  exact (downloadFile_failure_writes_nothing config_file "p1" "/index.html"
           (home ++ ["app"; "index.html"]) logged_in project_home
           (Http.Response 404 (Json.Garbage "Not found")) Hcf).
Defined.

(** X28: [uploadFile] sends at most one request, and only for a local path
    that exists and can be read, from an object that is logged in: the
    request saves the contents of that file at the remote path.  It
    resolves only with the remote path, after a response with status 200 or
    201; for a local path that does not exist it is rejected with [File
    does not exist.] whether the object is logged in or not. *)
Theorem uploadFile_sends_file_contents (CONFIG_FILE : list string)
    (projectId : string) (localPath : list string) (remotePath : string)
    (m : Client.monaca) (s : Fs.fs) (r : Http.reply) :
  let o := Http.uploadFile CONFIG_FILE projectId localPath remotePath m s r in
  length (Http.sent o) ≤ 1 ∧
  (∀ q, q ∈ Http.sent o →
     Client._loggedIn m = true ∧ Fs.exists_ localPath s = true ∧
     Http.method q = Http.POST ∧
     Http.url q = "/project/" +:+ projectId +:+ "/file/save" ∧
     ∃ data, Fs.readFile localPath s = inr data ∧
             Http.formData q = Some (Http.SaveFile remotePath data)) ∧
  (∀ p, Http.promise o = Deferred.Fulfilled p →
     p = remotePath ∧ length (Http.sent o) = 1 ∧
     ∃ statusCode body, r = Http.Response statusCode body ∧
                        (statusCode = 200 ∨ statusCode = 201)) ∧
  (Fs.exists_ localPath s = false →
   o = Http.Outcome (Deferred.Rejected (Http.Text "File does not exist.")) s
         []).
Proof.
  intros o. unfold o, Http.uploadFile.
  destruct (Fs.exists_ localPath s) eqn:Hex; cbn [Http.sent Http.promise].
  2:{ split_and!; [cbn; lia|by intros ? ?%elem_of_nil|done|done]. }
  destruct (Fs.readFile localPath s) as [error|data] eqn:Hread;
    cbn [Http.sent Http.promise].
  { split_and!; [cbn; lia|by intros ? ?%elem_of_nil|done|done]. }
  set (p := Http._post CONFIG_FILE _ _ m s r).
  assert (Hsent : ∀ q, q ∈ Http.sent p →
            Client._loggedIn m = true ∧ Http.sent p = [q] ∧
            Http.method q = Http.POST ∧
            Http.url q = "/project/" +:+ projectId +:+ "/file/save" ∧
            Http.formData q = Some (Http.SaveFile remotePath data)).
  { intros q Hq. apply HttpFacts._post_sent in Hq
      as (Hl & Hs & Hm & Hu & Hf & _ & _).
    rewrite HttpFacts.resource_path_project in Hu. done. }
  assert (Hsame : Http.sent
            match Http.promise p with
            | Deferred.Pending =>
                Http.Outcome (V := string) Deferred.Pending (Http.tree p)
                  (Http.sent p)
            | Deferred.Fulfilled _ =>
                Http.Outcome (Deferred.Fulfilled remotePath) (Http.tree p)
                  (Http.sent p)
            | Deferred.Rejected error =>
                Http.Outcome (Deferred.Rejected error) (Http.tree p)
                  (Http.sent p)
            end = Http.sent p) by (by destruct (Http.promise p)).
  rewrite Hsame. split_and!.
  - destruct (Http.sent p) as [|q l]; [cbn; lia|].
    destruct (Hsent q (list_elem_of_here _ _)) as (_ & Hq & _).
    assert (l = []) as -> by congruence. cbn. lia.
  - intros q Hq. destruct (Hsent q Hq) as (Hl & _ & Hm & Hu & Hf).
    split_and!; try done. by exists data.
  - intros v. destruct (Http.promise p) as [|body|error] eqn:Hp;
      cbn [Http.promise]; [done| |done].
    intros [= <-]. apply HttpFacts._post_fulfilled in Hp as [(sc & -> & Hsc) Hlen].
    fold p in Hlen. split_and!; [done|done|]. by exists sc, body.
  - done.
Qed.
